(** * Microgrid energy monitoring backend: CSV ingest, readings, metrics

    A shallow embedding of the Express backend of the energy monitoring
    application:

    - [utils/csv.js]            : [parseCsv], [recordsToCsv]
    - [routes/data.routes.js]   : [GET /data], [POST /data/upload]
    - [routes/metrics.routes.js]: [GET /metrics], [GET /metrics/summary]
    - [routes/export.routes.js] : [GET /export/data.csv]

    Conventions of the embedding.

    - A JavaScript number is [NaN], an infinity or a finite value; finite
      values are exact rationals.  Rounding to binary64 is not modelled,
      except that [parseFloat] overflows to an infinity where binary64
      does; negative zero is identified with zero.
    - An integer produced by [parseInt] is a [Z].
    - A JavaScript object read with [obj.key] or [obj[key]] is a finite map
      from property names to values; an absent key reads [undefined].
    - The table [energy_data] is the list of its rows; a [timestamptz] is
      the number of microseconds since the epoch, a JavaScript date the
      number of milliseconds.  The string that [toISOString()] returns is
      identified with the instant it denotes.
    - The libraries the handlers call (csv-parse, dayjs) are not part of the
      repository: csv-parse is represented by the events it emits, dayjs by
      the function it computes on the strings it is given.  The string
      conversions of the host for numbers and dates are parameters.
    - The handlers are taken after the authentication middleware.  The
      parameters of a query are given as PostgreSQL reads them: a bound as
      an instant, a limit or an offset as an integer.  A lost connection,
      or a parameter PostgreSQL cannot read, makes the driver throw; the
      handlers answer that with status 500, and it is not modelled, except
      for the check constraint of the table, which an upload can violate. *)

From Stdlib Require Import Ascii String ZArith QArith Qround Lqa.
From stdpp Require Import gmap strings list fin_maps sorting.
From Equations Require Import Equations.

Local Open Scope Z_scope.

(** ** JavaScript primitives used by the handlers *)

Module Js.

(** The Number type. *)
Inductive number : Type :=
| NaN
| Infinity (negative : bool)
| Finite (q : Q).

(** [isNaN(x)] for a number [x]. *)
Definition isNaN (x : number) : bool :=
  match x with NaN => true | _ => false end.

(** [Number.isFinite(x)]: neither [NaN] nor an infinity. *)
Definition isFinite (x : number) : bool :=
  match x with Finite _ => true | _ => false end.

(** ASCII members of StrWhiteSpaceChar: TAB, LF, VT, FF, CR, SP. *)
Definition is_space (c : ascii) : bool :=
  let n := Z.of_nat (nat_of_ascii c) in
  ((9 <=? n) && (n <=? 13)) || (n =? 32).

Definition is_digit (c : ascii) : bool :=
  let n := Z.of_nat (nat_of_ascii c) in (48 <=? n) && (n <=? 57).

Definition digit_value (c : ascii) : Z := Z.of_nat (nat_of_ascii c) - 48.

(** The longest run of leading characters satisfying [p], and the rest. *)
Fixpoint span (p : ascii -> bool) (s : list ascii) : list ascii * list ascii :=
  match s with
  | c :: s' =>
      if p c then let '(a, b) := span p s' in (c :: a, b) else ([], s)
  | [] => ([], [])
  end.

Fixpoint trim_start (s : list ascii) : list ascii :=
  match s with
  | c :: s' => if is_space c then trim_start s' else s
  | [] => []
  end.

(** The mathematical value of a run of decimal digits. *)
Definition decimal_value (ds : list ascii) : Z :=
  fold_left (fun acc c => 10 * acc + digit_value c) ds 0.

Fixpoint starts_with (p s : list ascii) : bool :=
  match p, s with
  | [], _ => true
  | a :: p', b :: s' => if Ascii.eqb a b then starts_with p' s' else false
  | _ :: _, [] => false
  end.

(** An optional sign: [true] for a minus sign. *)
Definition read_sign (s : list ascii) : bool * list ascii :=
  match s with
  | "-"%char :: s' => (true, s')
  | "+"%char :: s' => (false, s')
  | _ => (false, s)
  end.

(** ExponentPart of a StrDecimalLiteral: [e] or [E], an optional sign and
    at least one digit; without a digit the literal ends before the [e]. *)
Definition read_exponent (s : list ascii) : Z :=
  match s with
  | c :: s' =>
      if Ascii.eqb c "e" || Ascii.eqb c "E" then
        let '(neg, s'') := read_sign s' in
        let '(ds, _) := span is_digit s'' in
        match ds with
        | [] => 0
        | _ => if neg then - decimal_value ds else decimal_value ds
        end
      else 0
  | [] => 0
  end.

(** [m * 10^e] as a rational in lowest terms. *)
Definition scale10 (m e : Z) : Q :=
  Qred (if 0 <=? e then inject_Z (m * 10 ^ e)
        else Qmake m (Z.to_pos (10 ^ (- e)))).

(** Decimal values of this magnitude or more round to an infinity in
    binary64 (round to nearest, ties to even). *)
Definition overflow_bound : Q := inject_Z (2 ^ 1024 - 2 ^ 970).

Definition of_decimal (neg : bool) (m e : Z) : number :=
  let q := scale10 m e in
  if Qle_bool overflow_bound q then Infinity neg
  else Finite (if neg then Qred (Qopp q) else q).

(** [parseFloat(s)] on a string: leading white space is skipped, the
    longest prefix that is a StrDecimalLiteral is read, and [NaN] is
    returned when there is none. *)
Definition parseFloat_string (s : string) : number :=
  let '(neg, body) := read_sign (trim_start (list_ascii_of_string s)) in
  if starts_with (list_ascii_of_string "Infinity") body then Infinity neg
  else
    let '(ip, r1) := span is_digit body in
    let '(fp, r2) :=
      match r1 with
      | "."%char :: r => span is_digit r
      | _ => ([], r1)
      end in
    match ip ++ fp with
    | [] => NaN
    | ds => of_decimal neg (decimal_value ds)
              (read_exponent r2 - Z.of_nat (length fp))
    end.

(** A property read from an object: [None] is [undefined], whose string
    conversion is ["undefined"]. *)
Definition ToString (v : option string) : string :=
  match v with Some s => s | None => "undefined" end.

Definition parseFloat (v : option string) : number :=
  parseFloat_string (ToString v).

(** The value of a character as a digit in a radix up to 36. *)
Definition digit_of (c : ascii) : option Z :=
  let n := Z.of_nat (nat_of_ascii c) in
  if (48 <=? n) && (n <=? 57) then Some (n - 48)
  else if (97 <=? n) && (n <=? 122) then Some (n - 87)
  else if (65 <=? n) && (n <=? 90) then Some (n - 55)
  else None.

Definition is_radix_digit (R : Z) (c : ascii) : bool :=
  match digit_of c with Some d => d <? R | None => false end.

Definition radix_value (R : Z) (ds : list ascii) : Z :=
  fold_left (fun acc c => R * acc + default 0 (digit_of c)) ds 0.

(** [parseInt(v, radix)]; [radix = 0] stands for an omitted radix.  The
    result is [None] for [NaN]. *)
Definition parseInt (v : option string) (radix : Z) : option Z :=
  let '(neg, s) :=
    read_sign (trim_start (list_ascii_of_string (ToString v))) in
  if negb (radix =? 0) && ((radix <? 2) || (36 <? radix)) then None
  else
    let strip := (radix =? 0) || (radix =? 16) in
    let R0 := if radix =? 0 then 10 else radix in
    let '(R, s') :=
      if strip && (starts_with (list_ascii_of_string "0x") s
                   || starts_with (list_ascii_of_string "0X") s)
      then (16, skipn 2 s) else (R0, s) in
    let '(ds, _) := span (is_radix_digit R) s' in
    match ds with
    | [] => None
    | _ => Some (if neg then - radix_value R ds else radix_value R ds)
    end.

(** [!n || isNaN(n)] for the result of [parseInt]: true for [NaN] and 0. *)
Definition falsy_or_NaN (n : option Z) : bool :=
  match n with
  | None => true
  | Some k => k =? 0
  end.

Definition Qis_zero (q : Q) : bool := Qeq_bool q 0.
Definition Qis_neg (q : Q) : bool := negb (Qle_bool 0 q).

(** [x + y]. *)
Definition add (x y : number) : number :=
  match x, y with
  | NaN, _ | _, NaN => NaN
  | Infinity a, Infinity b => if Bool.eqb a b then Infinity a else NaN
  | Infinity a, Finite _ | Finite _, Infinity a => Infinity a
  | Finite p, Finite q => Finite (Qred (p + q))
  end.

(** [x * y]. *)
Definition mul (x y : number) : number :=
  match x, y with
  | NaN, _ | _, NaN => NaN
  | Infinity a, Infinity b => Infinity (xorb a b)
  | Infinity a, Finite q | Finite q, Infinity a =>
      if Qis_zero q then NaN else Infinity (xorb a (Qis_neg q))
  | Finite p, Finite q => Finite (Qred (p * q))
  end.

(** [x / y]. *)
Definition div (x y : number) : number :=
  match x, y with
  | NaN, _ | _, NaN => NaN
  | Infinity _, Infinity _ => NaN
  | Infinity a, Finite q => Infinity (xorb a (Qis_neg q))
  | Finite _, Infinity _ => Finite 0
  | Finite p, Finite q =>
      if Qis_zero q then
        if Qis_zero p then NaN else Infinity (Qis_neg p)
      else Finite (Qred (p / q))
  end.

(** [Math.round(x)]: the nearest integer, halves towards plus infinity. *)
Definition Math_round (x : number) : number :=
  match x with
  | Finite q => Finite (inject_Z (Qfloor (q + (1 # 2))))
  | _ => x
  end.

(** [x || 0] for a number [x]: 0 and [NaN] are falsy. *)
Definition or_zero (x : number) : number :=
  match x with
  | NaN => Finite 0
  | Finite q => if Qis_zero q then Finite 0 else x
  | Infinity _ => x
  end.

(** [Math.round(x * 100) / 100]. *)
Definition round2 (x : number) : number :=
  div (Math_round (mul x (Finite 100))) (Finite 100).

(** [Date.prototype.toString()] writes the day, the date, the time of day
    to the second and the time zone.  The text is a function of the whole
    second of the date; which text is left to the host. *)
Definition Date_toString (second_text : Z -> string) (ms : Z) : string :=
  second_text (ms / 1000).

(** [Math.ceil(a / b)] for integers [a] and [b], with [b > 0]. *)
Definition Math_ceil_div (a b : Z) : Z :=
  Qceiling (inject_Z a / inject_Z b).

End Js.

(** ** utils/csv.js: parseCsv *)

Module Csv.

Import Js.

(** What csv-parse hands to the listeners of [parseCsv]: with
    [columns: true] every data row is an object keyed by the header
    names; the stream then ends, or fails with an error. *)
Record csv_events : Type := {
  data_events : list (gmap string string);
  error_event : option string
}.

(** A validated record [{ timestamp, consumption }]. *)
Record reading : Type := {
  timestamp : Z;
  consumption : number
}.

(** How the promise returned by [parseCsv] comes out.  [Uncaught]: a
    listener threw; the exception leaves the stream and the promise is
    neither resolved nor rejected. *)
Inductive outcome (A : Type) : Type :=
| Resolved (value : A)
| Rejected (err : string)
| Uncaught (err : string).
Arguments Resolved {A} value.
Arguments Rejected {A} err.
Arguments Uncaught {A} err.

(** The accumulator [records] and the lines written by [console.warn]. *)
Record parse_state : Type := {
  records : list reading;
  warnings : list string
}.

Definition warn_prefix : string := "⚠️ Invalid consumption value: ".

Section ParseCsv.

(** [dayjs.utc(x)]: the instant (milliseconds since the epoch) of the
    date it builds, [None] for an invalid date, on which
    [toISOString()] throws a RangeError. *)
Variable dayjs_utc : option string -> option Z.

(** The ['data'] listener. [None]: the listener threw. *)
Definition on_data (st : parse_state) (data : gmap string string)
  : option parse_state :=
  match dayjs_utc (data !! "timestamp") with
  | None => None
  | Some ts =>
      let c := parseFloat (data !! "consumption") in
      if isNaN c then
        Some {| records := records st;
                warnings := warnings st ++
                  [warn_prefix +:+ ToString (data !! "consumption")] |}
      else
        Some {| records := records st ++
                  [{| timestamp := ts; consumption := c |}];
                warnings := warnings st |}
  end.

(** The listener applied to the data events in order, up to the first one
    on which it throws: whether all events were handled, and the state
    reached. *)
Fixpoint on_all_data (st : parse_state) (rows : list (gmap string string))
  : bool * parse_state :=
  match rows with
  | [] => (true, st)
  | data :: rows' =>
      match on_data st data with
      | None => (false, st)
      | Some st' => on_all_data st' rows'
      end
  end.

(** The promise, and what was written to the console. *)
Definition parseCsv (src : csv_events) : outcome (list reading) * list string :=
  let '(handled, st) :=
    on_all_data {| records := []; warnings := [] |} (data_events src) in
  if handled then
    match error_event src with
    | Some err => (Rejected err, warnings st)
    | None => (Resolved (records st), warnings st)
    end
  else (Uncaught "RangeError: Invalid time value", warnings st).

End ParseCsv.

(** *** What the listener keeps and what it reports, row by row *)

(** The record a row contributes, if any. *)
Definition accepted (dayjs_utc : option string -> option Z)
    (data : gmap string string) : option reading :=
  match dayjs_utc (data !! "timestamp") with
  | Some ts =>
      let c := parseFloat (data !! "consumption") in
      if isNaN c then None else Some {| timestamp := ts; consumption := c |}
  | None => None
  end.

(** The warning a row causes, if any. *)
Definition warning_of (data : gmap string string) : option string :=
  if isNaN (parseFloat (data !! "consumption"))
  then Some (warn_prefix +:+ ToString (data !! "consumption"))
  else None.

(** [dayjs.utc] on the strings used in the examples of this file: three
    ISO-8601 instants of 1 January 2025, which it reads, and the string
    [not-a-date], for which it builds an invalid date.  The examples give
    it no other input. *)
Definition dayjs_sample (x : option string) : option Z :=
  match x with
  | Some s =>
      if String.eqb s "2025-01-01T00:00:00Z" then Some 1735689600000
      else if String.eqb s "2025-01-01T01:00:00Z" then Some 1735693200000
      else if String.eqb s "2025-01-01T02:00:00Z" then Some 1735696800000
      else None
  | None => None
  end.

(** The rows on which [toISOString()] does not throw. *)
Definition readable (dayjs_utc : option string -> option Z)
    (data : gmap string string) : Prop :=
  is_Some (dayjs_utc (data !! "timestamp")).

(** A data row of a file with the header [timestamp,consumption]. *)
Definition csv_row (ts c : string) : gmap string string :=
  {[ "timestamp" := ts; "consumption" := c ]}.

(** The example of the specification: three rows, the second one with the
    consumption [bad]. *)
Definition three_rows : csv_events :=
  {| data_events := [csv_row "2025-01-01T00:00:00Z" "5";
                     csv_row "2025-01-01T01:00:00Z" "bad";
                     csv_row "2025-01-01T02:00:00Z" "7"];
     error_event := None |}.

(** A file with the single data row [2025-01-01T00:00:00Z,Infinity]. *)
Definition infinity_row : csv_events :=
  {| data_events := [csv_row "2025-01-01T00:00:00Z" "Infinity"];
     error_event := None |}.

(** A file with the single data row [not-a-date,abc]. *)
Definition invalid_row : csv_events :=
  {| data_events := [csv_row "not-a-date" "abc"];
     error_event := None |}.

(** *** recordsToCsv *)

(** The values the records given to [recordsToCsv] hold: strings, numbers,
    dates (milliseconds since the epoch) and [null]. *)
Inductive value : Type :=
| VString (s : string)
| VNumber (n : number)
| VDate (ms : Z)
| VNull.

Definition comma : ascii := ","%char.
Definition dquote : ascii := "034"%char.
Definition newline : ascii := "010"%char.

Definition char_string (c : ascii) : string := String c EmptyString.

(** [s.includes(sub)]. *)
Fixpoint includes (s sub : string) : bool :=
  if String.prefix sub s then true
  else
    match s with
    | EmptyString => false
    | String _ s' => includes s' sub
    end.

(** [s.replace(/c/g, rep)] for a single character [c]. *)
Fixpoint replace_all (c : ascii) (rep : string) (s : string) : string :=
  match s with
  | EmptyString => EmptyString
  | String a s' =>
      if Ascii.eqb a c then rep +:+ replace_all c rep s'
      else String a (replace_all c rep s')
  end.

(** [items.join(sep)] on strings. *)
Fixpoint join (sep : string) (items : list string) : string :=
  match items with
  | [] => EmptyString
  | [x] => x
  | x :: rest => x +:+ sep +:+ join sep rest
  end.

(** The callback of [headers.map]: a string with a comma or a quote is
    quoted, any other value is returned as it is. *)
Definition escape_value (v : option value) : option value :=
  match v with
  | Some (VString s) =>
      if includes s (char_string comma) || includes s (char_string dquote)
      then Some (VString (char_string dquote
                   +:+ replace_all dquote (char_string dquote +:+ char_string dquote) s
                   +:+ char_string dquote))
      else v
  | _ => v
  end.

Section RecordsToCsv.

(** The string conversions of the host for numbers and dates. *)
Variable number_to_string : number -> string.
Variable date_to_string : Z -> string.

(** How [join] converts an element: [undefined] and [null] give the empty
    string, every other value its string conversion. *)
Definition join_item (v : option value) : string :=
  match v with
  | None | Some VNull => EmptyString
  | Some (VString s) => s
  | Some (VNumber n) => number_to_string n
  | Some (VDate ms) => date_to_string ms
  end.

Definition recordsToCsv (records : list (gmap string value))
    (headers : list string) : string :=
  let csvHeaders := join (char_string comma) headers in
  let csvRows :=
    map (fun record : gmap string value =>
           join (char_string comma)
             (map (fun header => join_item (escape_value (record !! header)))
                headers))
        records in
  join (char_string newline) (csvHeaders :: csvRows).

End RecordsToCsv.

(** Standard CSV quoting, as a function of the characters of a field. *)

(** The field holds a comma or a double quote. *)
Definition has_comma_or_quote (s : string) : Prop :=
  In comma (list_ascii_of_string s) \/ In dquote (list_ascii_of_string s).

(** Every double quote written twice. *)
Definition double_quotes (s : string) : string :=
  string_of_list_ascii
    (flat_map (fun c => if Ascii.eqb c dquote then [dquote; dquote] else [c])
       (list_ascii_of_string s)).

(** The field between double quotes, its own quotes doubled. *)
Definition quoted (s : string) : string :=
  String dquote (double_quotes s +:+ char_string dquote).

(** The quoting rule: a field that holds a comma or a double quote is
    written quoted, any other field as it is. *)
Definition csv_quote (s : string) : string :=
  if existsb (fun c => Ascii.eqb c comma || Ascii.eqb c dquote)
       (list_ascii_of_string s)
  then quoted s else s.

(** The rule applied to a value: strings are fields; a value that is not a
    string has no characters and is written as the host converts it. *)
Definition csv_field (number_to_string : number -> string)
    (date_to_string : Z -> string) (v : option value) : string :=
  match v with
  | Some (VString s) => csv_quote s
  | _ => join_item number_to_string date_to_string v
  end.

(** The rule applied to every column of every record, under the line of
    the headers. *)
Definition csv_text (number_to_string : number -> string)
    (date_to_string : Z -> string) (records : list (gmap string value))
    (headers : list string) : string :=
  join (char_string newline)
    (join (char_string comma) headers
     :: map (fun record : gmap string value =>
               join (char_string comma)
                 (map (fun header =>
                         csv_field number_to_string date_to_string
                           (record !! header))
                    headers))
          records).

End Csv.

(** ** The table energy_data and the SQL the handlers issue *)

Module Db.

Import Js.

(** [energy_data (id SERIAL PRIMARY KEY, timestamp TIMESTAMPTZ NOT NULL,
    consumption DOUBLE PRECISION NOT NULL CHECK (consumption >= 0))]. *)
Record row : Type := {
  id : Z;
  timestamp : Z;
  consumption : number
}.

Record store : Type := {
  energy_data : list row;
  next_id : Z
}.

(** The order of [float8]: [NaN] equals itself and is above every other
    value. *)
Definition float8_compare (x y : number) : comparison :=
  match x, y with
  | NaN, NaN => Eq
  | NaN, _ => Gt
  | _, NaN => Lt
  | Infinity a, Infinity b =>
      if a then (if b then Eq else Lt) else (if b then Gt else Eq)
  | Infinity a, Finite _ => if a then Lt else Gt
  | Finite _, Infinity b => if b then Gt else Lt
  | Finite p, Finite q => Qcompare p q
  end.

Definition float8_le (x y : number) : bool :=
  match float8_compare x y with Gt => false | _ => true end.

Definition float8_lt (x y : number) : bool :=
  match float8_compare x y with Lt => true | _ => false end.

Definition float8_eq (x y : number) : bool :=
  match float8_compare x y with Eq => true | _ => false end.

(** [CHECK (consumption >= 0)]. *)
Definition check_consumption (c : number) : bool := float8_le (Finite 0) c.

(** [WHERE timestamp >= $from AND timestamp <= $to], each condition
    present when the bound is. *)
Definition in_range (from to : option Z) (r : row) : bool :=
  match from with Some f => f <=? timestamp r | None => true end
  && match to with Some t => timestamp r <=? t | None => true end.

Definition where_range (from to : option Z) (rows : list row) : list row :=
  List.filter (in_range from to) rows.

(** [ORDER BY timestamp DESC] and [ORDER BY timestamp ASC].  The engine
    is free in the order of rows of equal timestamp, and free anew in
    each query; [merge_sort] fixes one such order.  What is stated below
    of an order either holds of every sorted arrangement of the rows, or
    assumes distinct timestamps. *)
Definition ts_desc (a b : row) : Prop := timestamp b <= timestamp a.
Definition ts_asc (a b : row) : Prop := timestamp a <= timestamp b.

#[global] Instance ts_desc_dec a b : Decision (ts_desc a b).
Proof. unfold ts_desc. apply _. Defined.

#[global] Instance ts_asc_dec a b : Decision (ts_asc a b).
Proof. unfold ts_asc. apply _. Defined.

Definition order_by_timestamp_desc (rows : list row) : list row :=
  merge_sort ts_desc rows.

Definition order_by_timestamp_asc (rows : list row) : list row :=
  merge_sort ts_asc rows.

(** [LIMIT n OFFSET k]. *)
Definition limit_offset (n k : Z) (rows : list row) : list row :=
  firstn (Z.to_nat n) (skipn (Z.to_nat k) rows).

(** [ORDER BY consumption DESC, timestamp DESC]. *)
Definition peak_before (a b : row) : bool :=
  match float8_compare (consumption a) (consumption b) with
  | Gt => true
  | Eq => timestamp b <=? timestamp a
  | Lt => false
  end.

Definition peak_order (a b : row) : Prop := peak_before a b = true.

#[global] Instance peak_order_dec a b : Decision (peak_order a b).
Proof. unfold peak_order. apply _. Defined.

Definition order_by_peak (rows : list row) : list row :=
  merge_sort peak_order rows.

(** Aggregates; [None] is SQL [NULL], the value over no rows. *)
Definition sql_max (xs : list number) : option number :=
  match xs with
  | [] => None
  | x :: xs' =>
      Some (fold_left (fun m y => if float8_lt m y then y else m) xs' x)
  end.

Definition sql_min (xs : list number) : option number :=
  match xs with
  | [] => None
  | x :: xs' =>
      Some (fold_left (fun m y => if float8_lt y m then y else m) xs' x)
  end.

Definition sql_sum (xs : list number) : option number :=
  match xs with
  | [] => None
  | x :: xs' => Some (fold_left add xs' x)
  end.

Definition sql_count {A} (xs : list A) : Z := Z.of_nat (length xs).

Definition sql_avg (xs : list number) : option number :=
  match sql_sum xs with
  | None => None
  | Some s => Some (div s (Finite (inject_Z (sql_count xs))))
  end.

Definition min_timestamp (ts : list Z) : option Z :=
  match ts with
  | [] => None
  | t :: ts' => Some (fold_left Z.min ts' t)
  end.

Definition max_timestamp (ts : list Z) : option Z :=
  match ts with
  | [] => None
  | t :: ts' => Some (fold_left Z.max ts' t)
  end.

(** [DATE(timestamp)] in a UTC session: the day number of the instant. *)
Definition DATE (t : Z) : Z := t / 86400000000.

Definition count_distinct (xs : list Z) : Z :=
  Z.of_nat (length (remove_dups xs)).

Definition finite_value (x : number) : option Q :=
  match x with Finite q => Some q | _ => None end.

(** The sample variance of finite values: the sum of squares minus the
    square of the sum over [n], over [n - 1]. *)
Definition var_samp (qs : list Q) : Q :=
  let n := inject_Z (Z.of_nat (length qs)) in
  let s := fold_left Qplus qs 0%Q in
  let s2 := fold_left (fun acc q => (acc + q * q)%Q) qs 0%Q in
  Qred ((s2 - s * s / n) / (n - 1)).

Section Stddev.

(** The square root of the engine on non-negative values. *)
Variable sqrt : Q -> Q.

(** [STDDEV(x)]: [NULL] for fewer than two rows; [NaN] when an input is
    not finite. *)
Definition sql_stddev (xs : list number) : option number :=
  match xs with
  | [] | [_] => None
  | _ =>
      match mapM finite_value xs with
      | Some qs => Some (Finite (sqrt (var_samp qs)))
      | None => Some NaN
      end
  end.

End Stddev.

(** [COALESCE(x, 0)]. *)
Definition coalesce0 (x : option number) : number := default (Finite 0) x.

Section Insert.

(** The uniqueness constraints of the table, as a test of a new row
    against the rows present.  The schema declares none beyond the
    serial key, for which the test is constantly [false]. *)
Variable conflicts : list row -> Z -> number -> bool.

(** One row of [INSERT ... VALUES ... ON CONFLICT DO NOTHING].
    [None]: the check constraint fails and the statement is aborted. *)
Definition insert_row (acc : store * Z) (v : Z * number)
  : option (store * Z) :=
  let '(st, n) := acc in
  let '(ts, c) := v in
  if check_consumption c then
    if conflicts (energy_data st) ts c then Some (st, n)
    else
      Some ({| energy_data := energy_data st ++
                 [{| id := next_id st; timestamp := ts; consumption := c |}];
               next_id := next_id st + 1 |}, n + 1)
  else None.

Fixpoint insert_rows (acc : store * Z) (vs : list (Z * number))
  : option (store * Z) :=
  match vs with
  | [] => Some acc
  | v :: vs' =>
      match insert_row acc v with
      | Some acc' => insert_rows acc' vs'
      | None => None
      end
  end.

(** The statement: the new store and [rowCount], or [None] when the
    driver throws, in which case the store is as before. *)
Definition insert_values (st : store) (vs : list (Z * number))
  : option (store * Z) :=
  insert_rows (st, 0) vs.

End Insert.

(** The schema as declared: no uniqueness constraint on the readings. *)
Definition no_conflict (rows : list row) (ts : Z) (c : number) : bool := false.

(** The readings of a store, as (timestamp, consumption) pairs. *)
Definition readings (st : store) : list (Z * number) :=
  map (fun r => (timestamp r, consumption r)) (energy_data st).

(** Example stores. *)
Definition empty_store (next : Z) : store :=
  {| energy_data := []; next_id := next |}.

(** Two rows share the maximum 7; a third one is below. *)
Definition tied_store : store :=
  {| energy_data :=
       [ {| id := 1; timestamp := 1735689600000000; consumption := Finite 7 |};
         {| id := 2; timestamp := 1735696800000000; consumption := Finite 7 |};
         {| id := 3; timestamp := 1735700400000000; consumption := Finite 5 |} ];
     next_id := 4 |}.

(** The single reading 0.125. *)
Definition eighth_store : store :=
  {| energy_data :=
       [ {| id := 1; timestamp := 1735689600000000;
            consumption := Finite (1 # 8) |} ];
     next_id := 2 |}.

(** A reading of 5 at 2025-01-01T00:00:00.000Z, and the same reading half
    a second later. *)
Definition whole_second_store : store :=
  {| energy_data :=
       [ {| id := 1; timestamp := 1735689600000000; consumption := Finite 5 |} ];
     next_id := 2 |}.

Definition half_second_store : store :=
  {| energy_data :=
       [ {| id := 1; timestamp := 1735689600500000; consumption := Finite 5 |} ];
     next_id := 2 |}.

End Db.

(** ** routes/data.routes.js *)

Module DataRoutes.

Import Js Csv.

(** *** POST /data/upload *)

Inductive upload_response : Type :=
| UploadOk (message : string) (records_processed records_inserted : Z)
| UploadError (status : Z) (error : string)
| UploadNoResponse.

Definition batchSize : nat := 1000.

(** [a.slice(i, j)] for [0 <= i <= j]. *)
Definition slice {A} (i j : nat) (a : list A) : list A :=
  firstn (j - i) (skipn i a).

(** The parameters of one batch: the timestamp of each record as a
    [timestamptz], and its consumption. *)
Definition batch_values (batch : list reading) : list (Z * number) :=
  map (fun r => (Csv.timestamp r * 1000, Csv.consumption r)) batch.

(** The rows that pass the validation of [parseCsv]. *)
Definition passes_validation (data : gmap string string) : bool :=
  negb (isNaN (parseFloat (data !! "consumption"))).

(** A sequence cut into consecutive chunks of [n] elements, the last one
    possibly shorter. *)
Equations? chunks {A} (n : nat) (l : list A) : list (list A)
    by wf (length l) lt :=
  chunks n [] := [];
  chunks n (x :: l) := (x :: firstn (pred n) l) :: chunks n (skipn (pred n) l).
Proof. rewrite length_skipn. simpl. lia. Qed.

Definition sum_counts (counts : list Z) : Z := fold_right Z.add 0 counts.

(** The records a file parses to when no timestamp makes the listener
    throw. *)
Definition parsed_records (dayjs_utc : option string -> option Z)
    (src : csv_events) : list reading :=
  omap (accepted dayjs_utc) (data_events src).

Section Upload.

Variable dayjs_utc : option string -> option Z.
Variable conflicts : list Db.row -> Z -> number -> bool.

(** One bulk insert per chunk, in order: the counts the statements report,
    or [None] when one of them fails, and the store they leave. *)
Fixpoint run_chunks (st : Db.store) (cs : list (list reading))
  : option (list Z) * Db.store :=
  match cs with
  | [] => (Some [], st)
  | c :: cs' =>
      match Db.insert_values conflicts st (batch_values c) with
      | Some (st', rowCount) =>
          let '(r, st'') := run_chunks st' cs' in
          (cons rowCount <$> r, st'')
      | None => (None, st)
      end
  end.

(** The loop [for (let i = 0; i < records.length; i += batchSize)].
    The result is the final [insertedCount], or [None] when a query throws,
    and the store after the statements that were committed. *)
Equations? insert_batches (records : list reading) (i : nat)
    (insertedCount : Z) (st : Db.store) : option Z * Db.store
    by wf (length records - i)%nat lt :=
  insert_batches records i insertedCount st with lt_dec i (length records) => {
    | left _ with Db.insert_values conflicts st
                    (batch_values (slice i (i + batchSize) records)) => {
        | Some (st', rowCount) =>
            insert_batches records (i + batchSize)%nat
              (insertedCount + rowCount) st'
        | None => (None, st) }
    | right _ => (Some insertedCount, st) }.
Proof. unfold batchSize. lia. Qed.

(** The handler, given the events csv-parse emits for the uploaded file
    ([None]: the request carries no file). *)
Definition upload (file : option csv_events) (st : Db.store)
  : upload_response * Db.store :=
  match file with
  | None => (UploadError 400 "No file uploaded", st)
  | Some src =>
      match fst (parseCsv dayjs_utc src) with
      | Uncaught _ => (UploadNoResponse, st)
      | Rejected _ => (UploadError 500 "Failed to process uploaded file", st)
      | Resolved records =>
          if (length records =? 0)%nat then
            (UploadError 400 "No valid records found in CSV", st)
          else
            match insert_batches records 0 0 st with
            | (Some insertedCount, st') =>
                (UploadOk "Data uploaded successfully"
                   (Z.of_nat (length records)) insertedCount, st')
            | (None, st') =>
                (UploadError 500 "Failed to process uploaded file", st')
            end
      end
  end.

End Upload.

(** *** GET /data *)

(** The query string.  [from] and [to] are given as the instants
    PostgreSQL reads from them; an absent or empty parameter is [None]. *)
Record data_query : Type := {
  q_from : option Z;
  q_to : option Z;
  q_limit : option string;
  q_page : option string
}.

Record data_page : Type := {
  data : list Db.row;
  count : Z;
  limit : Z;
  page : Z;
  total : Z;
  totalPages : Z
}.

Inductive data_response : Type :=
| DataOk (body : data_page)
| DataError (status : Z) (error : string).

(** [limit] after the defaulting step. *)
Definition effective_limit (q : data_query) : Z :=
  let limit := parseInt (q_limit q) 0 in
  if falsy_or_NaN limit then 100 else default 100 limit.

(** [page] after the defaulting step. *)
Definition effective_page (q : data_query) : Z :=
  let page := parseInt (q_page q) 0 in
  if falsy_or_NaN page || (default 1 page <? 1) then 1 else default 1 page.

(** [OFFSET] is a [bigint]: the database refuses a parameter above the
    greatest one. *)
Definition int8_max : Z := 9223372036854775807.

(** The handler.  The count query runs first; the data query is refused,
    and the request answered by the [catch], when the offset is not a
    [bigint]. *)
Definition get_data (st : Db.store) (q : data_query) : data_response :=
  let limit := effective_limit q in
  let page := effective_page q in
  if (limit <? 1) || (10000 <? limit) then
    DataError 400 "Limit must be between 1 and 10000"
  else
    let matching := Db.where_range (q_from q) (q_to q) (Db.energy_data st) in
    let totalCount := Db.sql_count matching in
    let offset := (page - 1) * limit in
    if int8_max <? offset then DataError 500 "Internal server error"
    else
      let rows :=
        Db.limit_offset limit offset (Db.order_by_timestamp_desc matching) in
      DataOk {| data := rows;
                count := Z.of_nat (length rows);
                limit := limit;
                page := page;
                total := totalCount;
                totalPages := Math_ceil_div totalCount limit |}.

(** A request without [from] and [to]. *)
Definition sample_query (limit page : option string) : data_query :=
  {| q_from := None; q_to := None; q_limit := limit; q_page := page |}.

(** The request [?limit=100&page=93000000000000000], and the same request
    without [limit]. *)
Definition far_page : data_query :=
  sample_query (Some "100") (Some "93000000000000000").


End DataRoutes.

(** ** routes/export.routes.js: the rows of GET /export/data.csv *)

Module ExportRoutes.

Import Js.

Record export_query : Type := {
  e_from : option Z;
  e_to : option Z;
  e_limit : option string
}.

(** The [LIMIT] clause, added when [limit] is a non-empty string that
    [parseInt(limit, 10)] reads as a number in 1..100000. *)
Definition export_limit (limit : option string) : option Z :=
  match limit with
  | Some s =>
      if String.eqb s EmptyString then None
      else
        match parseInt (Some s) 10 with
        | Some n => if (0 <? n) && (n <=? 100000) then Some n else None
        | None => None
        end
  | None => None
  end.

(** The rows of the query, which the handler passes to [recordsToCsv]. *)
Definition export_data_rows (st : Db.store) (q : export_query) : list Db.row :=
  let sorted :=
    Db.order_by_timestamp_asc
      (Db.where_range (e_from q) (e_to q) (Db.energy_data st)) in
  match export_limit (e_limit q) with
  | Some n => firstn (Z.to_nat n) sorted
  | None => sorted
  end.

(** The module [db] forwards the statement to the pg driver and returns
    its rows.  A reading holds a point in time (a timezone-aware instant)
    and a real number; the driver hands the former to JavaScript as a
    date, of millisecond resolution, and the latter as a number. *)
Definition row_record (r : Db.row) : gmap string Csv.value :=
  {[ "timestamp" := Csv.VDate (Db.timestamp r / 1000);
     "consumption" := Csv.VNumber (Db.consumption r) ]}.

(** The body of the response. *)
Definition export_data_csv (number_to_string : number -> string)
    (date_to_string : Z -> string) (st : Db.store) (q : export_query) : string :=
  Csv.recordsToCsv number_to_string date_to_string
    (map row_record (export_data_rows st q)) ["timestamp"; "consumption"].

(** The query without bounds and without limit. *)
Definition export_all : export_query :=
  {| e_from := None; e_to := None; e_limit := None |}.

End ExportRoutes.

(** ** routes/metrics.routes.js *)

Module MetricsRoutes.

Import Js.

(** *** GET /metrics *)

(** The row of the query: the aggregates, joined with the timestamp of the
    first row in the order of the peak ([NULL] over an empty table). *)
Record metrics_row : Type := {
  r_count_points : Z;
  r_total_consumption : number;
  r_avg_consumption : number;
  r_peak_consumption : number;
  r_peak_timestamp : option Z
}.

Definition metrics_query (st : Db.store) : list metrics_row :=
  let rows := Db.energy_data st in
  let cs := map Db.consumption rows in
  [ {| r_count_points := Db.sql_count rows;
       r_total_consumption := Db.coalesce0 (Db.sql_sum cs);
       r_avg_consumption := Db.coalesce0 (Db.sql_avg cs);
       r_peak_consumption := Db.coalesce0 (Db.sql_max cs);
       r_peak_timestamp := Db.timestamp <$> head (Db.order_by_peak rows) |} ].

Record metrics : Type := {
  count_points : number;
  total_consumption : number;
  avg_consumption : number;
  peak_consumption : number;
  peak_timestamp : option Z
}.

(** [Number(n)] for a count, which the driver delivers as an integer or as
    the decimal text of one. *)
Definition Number_of_count (n : Z) : number := Finite (inject_Z n).

Definition get_metrics (st : Db.store) : metrics :=
  let r :=
    default {| r_count_points := 0;
               r_total_consumption := Finite 0;
               r_avg_consumption := Finite 0;
               r_peak_consumption := Finite 0;
               r_peak_timestamp := None |}
            (head (metrics_query st)) in
  {| count_points := or_zero (Number_of_count (r_count_points r));
     total_consumption := round2 (or_zero (r_total_consumption r));
     avg_consumption := round2 (or_zero (r_avg_consumption r));
     peak_consumption := round2 (or_zero (r_peak_consumption r));
     peak_timestamp := r_peak_timestamp r |}.

(** *** GET /metrics/summary *)

Record summary_row : Type := {
  r_earliest_timestamp : option Z;
  r_latest_timestamp : option Z;
  r_min_consumption : number;
  r_max_consumption : number;
  r_consumption_stddev : number;
  r_days_of_data : Z
}.

Record summary : Type := {
  earliest_timestamp : option Z;
  latest_timestamp : option Z;
  min_consumption : number;
  max_consumption : number;
  consumption_stddev : number;
  days_of_data : number
}.

Section Summary.

Variable sqrt : Q -> Q.

Definition summary_query (st : Db.store) : list summary_row :=
  let rows := Db.energy_data st in
  let cs := map Db.consumption rows in
  let ts := map Db.timestamp rows in
  [ {| r_earliest_timestamp := Db.min_timestamp ts;
       r_latest_timestamp := Db.max_timestamp ts;
       r_min_consumption := Db.coalesce0 (Db.sql_min cs);
       r_max_consumption := Db.coalesce0 (Db.sql_max cs);
       r_consumption_stddev := Db.coalesce0 (Db.sql_stddev sqrt cs);
       r_days_of_data := Db.count_distinct (map Db.DATE ts) |} ].

Definition get_metrics_summary (st : Db.store) : summary :=
  match head (summary_query st) with
  | Some r =>
      {| earliest_timestamp := r_earliest_timestamp r;
         latest_timestamp := r_latest_timestamp r;
         min_consumption := or_zero (r_min_consumption r);
         max_consumption := or_zero (r_max_consumption r);
         consumption_stddev := round2 (or_zero (r_consumption_stddev r));
         days_of_data := or_zero (Number_of_count (r_days_of_data r)) |}
  | None =>
      {| earliest_timestamp := None;
         latest_timestamp := None;
         min_consumption := Finite 0;
         max_consumption := Finite 0;
         consumption_stddev := Finite 0;
         days_of_data := Finite 0 |}
  end.

End Summary.

End MetricsRoutes.

(** ** Sample files *)

Module CsvSamples.


(** A file with the header [timestamp,value]: no row has a consumption. *)
Definition no_consumption_column : Csv.csv_events :=
  {| Csv.data_events :=
       [ {[ "timestamp" := "2025-01-01T00:00:00Z"; "value" := "5" ]};
         {[ "timestamp" := "2025-01-01T01:00:00Z"; "value" := "7" ]} ];
     Csv.error_event := None |}.

End CsvSamples.

(** ** Reading the answers of GET /data *)

Module Paging.

Import DataRoutes.

(** The rows an answer of GET /data carries; an error answer has none. *)
Definition response_rows (r : data_response) : list Db.row :=
  match r with
  | DataOk body => data body
  | DataError _ _ => []
  end.

(** The answers to the requests for pages 1 to [n], the request for page
    [p + 1] being [request p], and their rows one page after the other. *)
Definition pages_rows (st : Db.store) (request : nat -> data_query)
    (n : nat) : list Db.row :=
  concat (map (fun p => response_rows (get_data st (request p))) (seq 0 n)).

(** The requests [?limit=2&page=1] and [?limit=2&page=2]. *)
Definition two_per_page (p : nat) : data_query :=
  match p with
  | O => sample_query (Some "2") (Some "1")
  | _ => sample_query (Some "2") (Some "2")
  end.

(** The export request [?limit=...], without [from] and [to]. *)
Definition limited_export (limit : string) : ExportRoutes.export_query :=
  {| ExportRoutes.e_from := None; ExportRoutes.e_to := None;
     ExportRoutes.e_limit := Some limit |}.

End Paging.

(** ** routes/data.routes.js: the routes of one record *)

Module RecordRoutes.

Import Js.

(** [id SERIAL]: a 32-bit integer.  The database refuses a parameter that
    is outside of the range. *)
Definition int4 (n : Z) : bool := (-2147483648 <=? n) && (n <=? 2147483647).

(** [WHERE id = $1]. *)
Definition where_id (id : Z) (rows : list Db.row) : list Db.row :=
  List.filter (fun r => Db.id r =? id) rows.

Definition where_not_id (id : Z) (rows : list Db.row) : list Db.row :=
  List.filter (fun r => negb (Db.id r =? id)) rows.

(** *** GET /data/:id *)

Inductive record_response : Type :=
| RecordOk (body : Db.row)
| RecordError (status : Z) (error : string).

Definition get_record (st : Db.store) (id_param : string) : record_response :=
  match parseInt (Some id_param) 0 with
  | None => RecordError 400 "Invalid ID"
  | Some id =>
      if int4 id then
        match where_id id (Db.energy_data st) with
        | [] => RecordError 404 "Data not found"
        | r :: _ => RecordOk r
        end
      else RecordError 500 "Internal server error"
  end.

(** *** DELETE /data/:id *)

Inductive delete_response : Type :=
| DeleteOk (message : string) (id : Z)
| DeleteError (status : Z) (error : string).

Definition delete_record (st : Db.store) (id_param : string)
  : delete_response * Db.store :=
  match parseInt (Some id_param) 0 with
  | None => (DeleteError 400 "Invalid ID", st)
  | Some id =>
      if int4 id then
        match where_id id (Db.energy_data st) with
        | [] => (DeleteError 404 "Data not found", st)
        | _ :: _ =>
            (DeleteOk "Data deleted successfully" id,
             {| Db.energy_data := where_not_id id (Db.energy_data st);
                Db.next_id := Db.next_id st |})
        end
      else (DeleteError 500 "Internal server error", st)
  end.

(** *** PUT /data/:id *)

(** A field of the body that is not [undefined], as the database reads
    the parameter made of it: JSON [null] is [NULL]; any other value is
    sent as text, which the column's type reads as a value or refuses. *)
Inductive param (A : Type) : Type :=
| Null
| Unreadable
| Value (v : A).

Arguments Null {A}.
Arguments Unreadable {A}.
Arguments Value {A} v.

(** The two fields of [req.body]; [None] is [undefined]. *)
Record put_body : Type := {
  b_timestamp : option (param Z);
  b_consumption : option (param number)
}.

Definition is_unreadable {A} (field : option (param A)) : bool :=
  match field with Some Unreadable => true | _ => false end.

(** The value of a column after [SET]: the former one when the field is
    not among the assignments; [None] when [NULL] is assigned to the
    column, which is [NOT NULL]. *)
Definition new_value {A} (field : option (param A)) (old : A) : option A :=
  match field with
  | None => Some old
  | Some (Value v) => Some v
  | Some _ => None
  end.

Inductive put_response : Type :=
| PutOk (message : string) (data : Db.row)
| PutError (status : Z) (error : string).

Section Update.

(** The check constraint of the table on [consumption], as a test:
    db/init declares none, the README [consumption >= 0]. *)
Variable check : number -> bool.

(** What [UPDATE ... WHERE id = $n] makes of a row; [None] when the new
    row violates a constraint. *)
Definition update_row (body : put_body) (id : Z) (r : Db.row)
  : option Db.row :=
  if Db.id r =? id then
    match new_value (b_timestamp body) (Db.timestamp r),
          new_value (b_consumption body) (Db.consumption r) with
    | Some t, Some c =>
        if check c then
          Some {| Db.id := Db.id r; Db.timestamp := t; Db.consumption := c |}
        else None
    | _, _ => None
    end
  else Some r.

(** The statement with [RETURNING]: the rows returned and the new store,
    or [None] when the driver throws: a parameter is refused, or a row
    violates a constraint. *)
Definition update_energy_data (body : put_body) (id : Z) (st : Db.store)
  : option (list Db.row * Db.store) :=
  if int4 id && negb (is_unreadable (b_timestamp body))
     && negb (is_unreadable (b_consumption body)) then
    match mapM (update_row body id) (Db.energy_data st) with
    | Some rows =>
        Some (where_id id rows,
              {| Db.energy_data := rows; Db.next_id := Db.next_id st |})
    | None => None
    end
  else None.

Definition put_record (st : Db.store) (id_param : string) (body : put_body)
  : put_response * Db.store :=
  match parseInt (Some id_param) 0 with
  | None => (PutError 400 "Invalid ID", st)
  | Some id =>
      match b_timestamp body, b_consumption body with
      | None, None => (PutError 400 "No fields provided for update", st)
      | _, _ =>
          match update_energy_data body id st with
          | Some ([], st') => (PutError 404 "Data not found", st')
          | Some (r :: _, st') => (PutOk "Data updated successfully" r, st')
          | None => (PutError 500 "Internal server error", st)
          end
      end
  end.

End Update.

(** The table without a check constraint. *)
Definition no_check (c : number) : bool := true.

(** Examples: a new consumption for a record, and [null] for it. *)
Definition set_consumption (c : number) : put_body :=
  {| b_timestamp := None; b_consumption := Some (Value c) |}.

Definition null_consumption : put_body :=
  {| b_timestamp := None; b_consumption := Some Null |}.

End RecordRoutes.

(** ** auth.js and routes/auth.routes.js *)

Module Auth.

Import Js RecordRoutes.

(** A row of [users].  [created_at] plays no part below. *)
Record user_row : Type := {
  u_id : Z;
  u_username : string;
  u_password_hash : string;
  u_is_admin : bool
}.

(** [SELECT id, username, is_admin]: what [req.user] holds. *)
Record req_user : Type := {
  ru_id : Z;
  ru_username : string;
  ru_is_admin : bool
}.

Definition selected (u : user_row) : req_user :=
  {| ru_id := u_id u; ru_username := u_username u;
     ru_is_admin := u_is_admin u |}.

(** [s.split(' ')]. *)
Fixpoint split_space (s : string) : list string :=
  match s with
  | EmptyString => [EmptyString]
  | String c s' =>
      if Ascii.eqb c " " then EmptyString :: split_space s'
      else
        match split_space s' with
        | piece :: pieces => String c piece :: pieces
        | [] => [String c EmptyString]
        end
  end.

(** [authHeader && authHeader.split(' ')[1]], with [None] for a falsy
    value: [undefined] or the empty string. *)
Definition bearer_token (authHeader : option string) : option string :=
  match authHeader with
  | None => None
  | Some h =>
      if String.eqb h EmptyString then None
      else
        match split_space h !! 1%nat with
        | Some t => if String.eqb t EmptyString then None else Some t
        | None => None
        end
  end.

(** The payload [generateToken] signs. *)
Record claims : Type := {
  c_id : Z;
  c_username : string;
  c_is_admin : bool
}.

(** What [jwt.verify] returns, as far as it is used: [decoded.id] as the
    database reads the parameter made of it ([Null] for [undefined] and
    [null]). *)
Record decoded : Type := {
  d_id : param Z
}.

Inductive passage : Type :=
| Next (user : req_user)
| Refused (status : Z) (error : string).

Section Middleware.

(** [jwt.verify(token, JWT_SECRET)]; [None] when it throws. *)
Variable jwt_verify : string -> option decoded.

Definition where_user_id (id : Z) (users : list user_row) : list user_row :=
  List.filter (fun u => u_id u =? id) users.

Definition authenticateToken (users : list user_row) (authHeader : option string)
  : passage :=
  match bearer_token authHeader with
  | None => Refused 401 "Access token required"
  | Some token =>
      match jwt_verify token with
      | None => Refused 401 "Invalid or expired token"
      | Some d =>
          match d_id d with
          | Null => Refused 401 "User not found"
          | Unreadable => Refused 401 "Invalid or expired token"
          | Value id =>
              if int4 id then
                match where_user_id id users with
                | [] => Refused 401 "User not found"
                | u :: _ => Next (selected u)
                end
              else Refused 401 "Invalid or expired token"
          end
      end
  end.

(** [requireAdmin], on the [req.user] that the step before has set. *)
Definition requireAdmin (user : option req_user) : passage :=
  match user with
  | Some u =>
      if ru_is_admin u then Next u
      else Refused 403 "Admin privileges required"
  | None => Refused 403 "Admin privileges required"
  end.

(** [authenticateToken, requireAdmin], in this order. *)
Definition admin_only (users : list user_row) (authHeader : option string)
  : passage :=
  match authenticateToken users authHeader with
  | Next u => requireAdmin (Some u)
  | Refused status error => Refused status error
  end.

End Middleware.

(** *** POST /token *)

(** The body, with fields that are strings; [None] is [undefined]. *)
Record login_body : Type := {
  l_username : option string;
  l_password : option string
}.

Record login_reply : Type := {
  access_token : string;
  token_type : string;
  expires_in : Z;
  user : req_user
}.

Inductive login_response : Type :=
| LoginOk (body : login_reply)
| LoginError (status : Z) (error : string).

(** [!s] for a string or [undefined]. *)
Definition falsy (s : option string) : bool :=
  match s with
  | None => true
  | Some s => String.eqb s EmptyString
  end.

Section Login.

(** [jwt.sign(payload, JWT_SECRET, ...)] and [bcrypt.compare]. *)
Variable jwt_sign : claims -> string.
Variable comparePassword : string -> string -> bool.

Definition generateToken (u : user_row) : string :=
  jwt_sign {| c_id := u_id u; c_username := u_username u;
              c_is_admin := u_is_admin u |}.

Definition login (users : list user_row) (body : login_body) : login_response :=
  if falsy (l_username body) || falsy (l_password body) then
    LoginError 400 "Username and password required"
  else
    let username := default EmptyString (l_username body) in
    let password := default EmptyString (l_password body) in
    match List.filter (fun u => String.eqb (u_username u) username) users with
    | [] => LoginError 401 "Invalid credentials"
    | u :: _ =>
        if comparePassword password (u_password_hash u) then
          LoginOk {| access_token := generateToken u;
                     token_type := "Bearer";
                     expires_in := 3600;
                     user := selected u |}
        else LoginError 401 "Invalid credentials"
    end.

End Login.

(** A string without a space. *)
Fixpoint no_space (s : string) : bool :=
  match s with
  | EmptyString => true
  | String c s' => negb (Ascii.eqb c " ") && no_space s'
  end.

(** Examples: two users, and a token scheme that writes the id of the
    user in a word. *)
Definition alice : user_row :=
  {| u_id := 1; u_username := "alice"; u_password_hash := "hash-a";
     u_is_admin := true |}.

Definition bob : user_row :=
  {| u_id := 2; u_username := "bob"; u_password_hash := "hash-b";
     u_is_admin := false |}.

Definition sample_sign (c : claims) : string :=
  if c_id c =? 1 then "token-1" else if c_id c =? 2 then "token-2" else "token".

Definition sample_verify (token : string) : option decoded :=
  if String.eqb token "token-1" then Some {| d_id := Value 1 |}
  else if String.eqb token "token-2" then Some {| d_id := Value 2 |}
  else None.

Definition sample_hash (password : string) : string := "hash-" +:+ password.

Definition sample_compare (password hash : string) : bool :=
  String.eqb (sample_hash password) hash.

End Auth.

(** ** routes/users.routes.js: POST /users and DELETE /users/:id *)

Module UsersRoutes.

Import Js RecordRoutes Auth.

Section Routes.

Variable jwt_verify : string -> option decoded.

(** *** DELETE /users/:id *)

Inductive delete_user_response : Type :=
| UserDeleted (message : string) (id : Z)
| UserError (status : Z) (error : string).

Definition delete_user_handler (users : list user_row) (requester : req_user)
    (id_param : string) : delete_user_response * list user_row :=
  match parseInt (Some id_param) 0 with
  | None => (UserError 400 "Invalid ID", users)
  | Some id =>
      if ru_id requester =? id then
        (UserError 400 "You cannot delete your own user", users)
      else if int4 id then
        match where_user_id id users with
        | [] => (UserError 404 "User not found", users)
        | _ :: _ =>
            (UserDeleted "User deleted successfully" id,
             List.filter (fun u => negb (u_id u =? id)) users)
        end
      else (UserError 500 "Internal server error", users)
  end.

Definition delete_user (users : list user_row) (authHeader : option string)
    (id_param : string) : delete_user_response * list user_row :=
  match admin_only jwt_verify users authHeader with
  | Next requester => delete_user_handler users requester id_param
  | Refused status error => (UserError status error, users)
  end.

(** *** POST /users *)

(** The body, with a username and a password that are strings or
    [undefined]; [is_admin] as the database reads it when it is not
    [undefined]. *)
Record create_body : Type := {
  n_username : option string;
  n_password : option string;
  n_is_admin : option (param bool)
}.

Inductive create_response : Type :=
| Created (message : string) (user : req_user)
| CreateError (status : Z) (error : string).

(** [hashPassword]: what bcrypt returns for a password. *)
Variable hashPassword : string -> string.

(** The handler; [new_id] is the value the sequence of the key gives to
    the row.  The insert is refused when the name is longer than
    [VARCHAR(50)] allows, or [is_admin] is [null] or unreadable. *)
Definition create_user_handler (users : list user_row) (new_id : Z)
    (body : create_body) : create_response * list user_row :=
  if falsy (n_username body) || falsy (n_password body) then
    (CreateError 400 "Username and password required", users)
  else
    let username := default EmptyString (n_username body) in
    let password := default EmptyString (n_password body) in
    if (String.length username <? 3)%nat then
      (CreateError 400 "Username must be at least 3 characters", users)
    else if (String.length password <? 6)%nat then
      (CreateError 400 "Password must be at least 6 characters", users)
    else
      match List.filter (fun u => String.eqb (u_username u) username)
              users with
      | _ :: _ => (CreateError 409 "Username already exists", users)
      | [] =>
          match default (Value false) (n_is_admin body) with
          | Value is_admin =>
              if (String.length username <=? 50)%nat then
                let row := {| u_id := new_id; u_username := username;
                              u_password_hash := hashPassword password;
                              u_is_admin := is_admin |} in
                (Created "User created successfully" (selected row),
                 users ++ [row])
              else (CreateError 500 "Internal server error", users)
          | _ => (CreateError 500 "Internal server error", users)
          end
      end.

Definition create_user (users : list user_row) (new_id : Z)
    (authHeader : option string) (body : create_body)
  : create_response * list user_row :=
  match admin_only jwt_verify users authHeader with
  | Next _ => create_user_handler users new_id body
  | Refused status error => (CreateError status error, users)
  end.

End Routes.

(** A body for a user that is not an admin. *)
Definition new_user (username password : string) : create_body :=
  {| n_username := Some username; n_password := Some password;
     n_is_admin := None |}.

End UsersRoutes.

(** ** index.js: initializeDatabase *)

Module Seed.

Import Js Csv DataRoutes Auth.

(** The two tables. *)
Record database : Type := {
  users : list user_row;
  energy : Db.store
}.

Section InitializeDatabase.

Variable dayjs_utc : option string -> option Z.

(** [process.env.FIRST_SUPERUSER || 'admin'], what [hashPassword]
    returns for the password of this user, and the value the sequence of
    the key gives to its row. *)
Variable adminUser : string.
Variable passwordHash : string.
Variable admin_id : Z.

(** The events csv-parse emits for [/data/energy_sample.csv]; [None] when
    the file does not exist. *)
Variable sample : option csv_events.

(** The admin user is created when no user has its name.  [None]: the
    insert is refused, the name being longer than [VARCHAR(50)] allows,
    and the process exits. *)
Definition seed_admin (db : database) : option database :=
  match List.filter (fun u => String.eqb (u_username u) adminUser)
          (users db) with
  | [] =>
      if (String.length adminUser <=? 50)%nat then
        Some {| users := users db ++
                  [{| u_id := admin_id; u_username := adminUser;
                      u_password_hash := passwordHash; u_is_admin := true |}];
                energy := energy db |}
      else None
  | _ :: _ => Some db
  end.

(** The sample file is loaded when the table is empty, with the loop of
    the upload and plain [INSERT]s; a rejected parse or a failed insert
    is logged, and what was inserted before stays.  [None]: a listener
    of the parser throws, which nothing catches. *)
Definition load_sample (st : Db.store) : option Db.store :=
  if Db.sql_count (Db.energy_data st) =? 0 then
    match sample with
    | None => Some st
    | Some src =>
        match fst (parseCsv dayjs_utc src) with
        | Resolved records =>
            if (0 <? length records)%nat then
              Some (snd (insert_batches Db.no_conflict records 0 0 st))
            else Some st
        | Rejected _ => Some st
        | Uncaught _ => None
        end
    end
  else Some st.

Definition initializeDatabase (db : database) : option database :=
  match seed_admin db with
  | Some db1 =>
      match load_sample (energy db1) with
      | Some st => Some {| users := users db1; energy := st |}
      | None => None
      end
  | None => None
  end.

End InitializeDatabase.

(** A database before the first start. *)
Definition fresh : database :=
  {| users := []; energy := Db.empty_store 1 |}.

End Seed.

(** ** frontend/src/components/Pagination.tsx: getPageItems *)

Module Pagination.

(** An item of the bar: a page number, or ['ellipsis']. *)
Inductive page_item : Type :=
| Page (n : Z)
| Ellipsis.

(** [for (let i = a; ...; i++) items.push(i)], run [n] times. *)
Fixpoint count_up (n : nat) (a : Z) : list Z :=
  match n with
  | O => []
  | S n' => a :: count_up n' (a + 1)
  end.

(** [for (let i = a; i <= b; i++) items.push(i)], for integers. *)
Definition range (a b : Z) : list Z := count_up (Z.to_nat (b - a + 1)) a.

(** [getPageItems(currentPage, totalPages)], for integers. *)
Definition getPageItems (currentPage totalPages : Z) : list page_item :=
  let visibleCount := 2 in
  if totalPages <=? 7 then map Page (range 1 totalPages)
  else
    let showLeftEllipsis := 2 <? currentPage - visibleCount in
    let showRightEllipsis := currentPage + visibleCount <? totalPages - 1 in
    let start :=
      if showLeftEllipsis then Z.max 2 (currentPage - visibleCount) else 2 in
    let end_ :=
      if showRightEllipsis
      then Z.min (totalPages - 1) (currentPage + visibleCount)
      else totalPages - 1 in
    [Page 1]
    ++ (if showLeftEllipsis then [Ellipsis] else [])
    ++ map Page (range start end_)
    ++ (if showRightEllipsis then [Ellipsis] else [])
    ++ [Page totalPages].

(** The page numbers among the items, in their order. *)
Definition page_numbers (items : list page_item) : list Z :=
  omap (fun item => match item with Page n => Some n | Ellipsis => None end)
       items.

(** The items after page [prev] leave no page out without saying so: a
    page number is the one after the page before it, and an ellipsis
    stands between two page numbers with a page between them. *)
Fixpoint gaps_marked (prev : Z) (items : list page_item) : bool :=
  match items with
  | [] => true
  | Page n :: rest => (n =? prev + 1) && gaps_marked n rest
  | Ellipsis :: rest =>
      match rest with
      | Page n :: rest' => (prev + 1 <? n) && gaps_marked n rest'
      | _ => false
      end
  end.

End Pagination.

(** * Properties *)

(** ** parseCsv *)

Module CsvFacts.

Import Js Csv.

Section ParseCsvFacts.

Variable dayjs_utc : option string -> option Z.

Lemma on_data_readable st data :
  readable dayjs_utc data ->
  on_data dayjs_utc st data =
    Some {| records := records st ++ option_list (accepted dayjs_utc data);
            warnings := warnings st ++ option_list (warning_of data) |}.
Proof.
  intros [ts Hts]. unfold on_data, accepted, warning_of. rewrite Hts.
  destruct (isNaN (parseFloat (data !! "consumption"))); simpl.
  - by rewrite app_nil_r.
  - by rewrite app_nil_r.
Qed.

Lemma on_data_throws st data :
  dayjs_utc (data !! "timestamp") = None -> on_data dayjs_utc st data = None.
Proof. intros H. unfold on_data. by rewrite H. Qed.

(** The listener run over rows with readable timestamps: the accumulator
    grows by the accepted rows, the log by one warning for each other row. *)
Lemma on_all_data_readable rows : forall st,
  Forall (readable dayjs_utc) rows ->
  on_all_data dayjs_utc st rows =
    (true, {| records := records st ++ omap (accepted dayjs_utc) rows;
              warnings := warnings st ++ omap warning_of rows |}).
Proof.
  induction rows as [|data rows IH]; intros st Hall; simpl.
  - rewrite !app_nil_r. by destruct st.
  - inversion Hall as [|? ? Hd Hrest]; subst.
    rewrite (on_data_readable st data Hd), IH by assumption. simpl.
    f_equal. f_equal.
    + rewrite <- app_assoc. f_equal.
      by destruct (accepted dayjs_utc data).
    + rewrite <- app_assoc. f_equal.
      by destruct (warning_of data).
Qed.

(** When the listener never throws, every timestamp was readable. *)
Lemma on_all_data_handled rows : forall st st',
  on_all_data dayjs_utc st rows = (true, st') ->
  Forall (readable dayjs_utc) rows.
Proof.
  induction rows as [|data rows IH]; intros st st' H; simpl in H.
  - constructor.
  - destruct (on_data dayjs_utc st data) as [st1|] eqn:E; [|discriminate].
    constructor; [|by eapply IH].
    unfold readable. unfold on_data in E.
    destruct (dayjs_utc (data !! "timestamp")); [eauto | discriminate].
Qed.

Lemma accepted_not_NaN data r :
  accepted dayjs_utc data = Some r -> isNaN (consumption r) = false.
Proof.
  unfold accepted. destruct (dayjs_utc _); [|discriminate].
  destruct (isNaN (parseFloat (data !! "consumption"))) eqn:E; [discriminate|].
  intros [= <-]. exact E.
Qed.

Lemma accepted_NaN data :
  isNaN (parseFloat (data !! "consumption")) = true ->
  accepted dayjs_utc data = None.
Proof.
  intros H. unfold accepted. destruct (dayjs_utc _); [|done]. by rewrite H.
Qed.

(** A row with a readable timestamp is kept exactly when its consumption
    is not [NaN]. *)
Lemma accepted_is_Some data :
  readable dayjs_utc data ->
  is_Some (accepted dayjs_utc data)
  <-> isNaN (parseFloat (data !! "consumption")) = false.
Proof.
  intros [ts Hts]. unfold accepted. rewrite Hts.
  destruct (isNaN _); split; intros H.
  - by destruct H.
  - discriminate.
  - reflexivity.
  - by eexists.
Qed.

Lemma omap_accepted_not_NaN rows :
  Forall (fun r => isNaN (consumption r) = false) (omap (accepted dayjs_utc) rows).
Proof.
  induction rows as [|data rows IH]; simpl; [constructor|].
  destruct (accepted dayjs_utc data) as [r|] eqn:E; [|exact IH].
  constructor; [by eapply accepted_not_NaN | exact IH].
Qed.

(** What a resolved parse returns. *)
Lemma parseCsv_Resolved src recs w :
  parseCsv dayjs_utc src = (Resolved recs, w) ->
  Forall (readable dayjs_utc) (data_events src)
  /\ error_event src = None
  /\ recs = omap (accepted dayjs_utc) (data_events src)
  /\ w = omap warning_of (data_events src).
Proof.
  unfold parseCsv.
  destruct (on_all_data _ _ _) as [[|] st] eqn:E; [|discriminate].
  pose proof (on_all_data_handled _ _ _ E) as Hr.
  rewrite (on_all_data_readable _ _ Hr) in E. simpl in E.
  injection E as <-. simpl.
  destruct (error_event src); [discriminate|].
  intros [= <- <-]. done.
Qed.

(** Whenever the promise is resolved, no record it carries has a [NaN]
    consumption. *)
Lemma parseCsv_Resolved_not_NaN src recs w :
  parseCsv dayjs_utc src = (Resolved recs, w) ->
  Forall (fun r => isNaN (consumption r) = false) recs.
Proof.
  intros H. apply parseCsv_Resolved in H as (_ & _ & -> & _).
  apply omap_accepted_not_NaN.
Qed.

(** A row with a timestamp that is not a date makes the listener throw,
    whatever the rows before and after it are. *)
Lemma parseCsv_unreadable_row src :
  Exists (fun d => dayjs_utc (d !! "timestamp") = None) (data_events src) ->
  exists err, fst (parseCsv dayjs_utc src) = Uncaught err.
Proof.
  intros Hex. unfold parseCsv.
  destruct (on_all_data _ _ _) as [[|] st] eqn:E; [|by eexists].
  apply on_all_data_handled in E. rewrite Forall_forall in E.
  apply Exists_exists in Hex as (d & Hd & Hnone).
  destruct (E d Hd) as [ts Hts]. congruence.
Qed.

(** An empty file, or one whose rows all have a readable timestamp and a
    consumption that is not a number, parses to the empty sequence. *)
Lemma parseCsv_all_rows_dropped src :
  error_event src = None ->
  Forall (readable dayjs_utc) (data_events src) ->
  Forall (fun d => isNaN (parseFloat (d !! "consumption")) = true) (data_events src) ->
  fst (parseCsv dayjs_utc src) = Resolved [].
Proof.
  intros Hend Hr Hnan. unfold parseCsv.
  rewrite (on_all_data_readable _ _ Hr), Hend. simpl.
  f_equal. induction Hnan as [|d rows Hd _ IH]; [done|].
  inversion Hr; subst. simpl. rewrite (accepted_NaN _ Hd). by apply IH.
Qed.

(** C1 (as amended). For every source that csv-parse reads to its end and
    whose rows all carry a timestamp dayjs can read, [parseCsv] resolves;
    the sequence it returns holds, in source order, exactly the rows whose
    consumption does not parse to [NaN], so that no returned record has a
    [NaN] consumption (an infinity is kept); every row whose consumption
    parses to [NaN] is left out of the sequence and reported by one
    warning that names the offending value. *)
Theorem parseCsv_drops_nan_rows (src : csv_events) :
  Forall (readable dayjs_utc) (data_events src) ->
  error_event src = None ->
  parseCsv dayjs_utc src =
    (Resolved (omap (accepted dayjs_utc) (data_events src)),
     omap warning_of (data_events src))
  /\ Forall (fun r => isNaN (consumption r) = false)
       (omap (accepted dayjs_utc) (data_events src))
  /\ (forall data, data ∈ data_events src ->
        isNaN (parseFloat (data !! "consumption")) = true ->
        accepted dayjs_utc data = None
        /\ warning_of data =
             Some (warn_prefix +:+ ToString (data !! "consumption")))
  /\ (forall data, data ∈ data_events src ->
        isNaN (parseFloat (data !! "consumption")) = false ->
        exists ts, accepted dayjs_utc data =
          Some {| timestamp := ts;
                  consumption := parseFloat (data !! "consumption") |}
          /\ warning_of data = None).
Proof.
  intros Hr Hend. split; [|split; [|split]].
  - unfold parseCsv. rewrite (on_all_data_readable _ _ Hr), Hend. done.
  - apply omap_accepted_not_NaN.
  - intros data _ Hnan. split; [by apply accepted_NaN|].
    unfold warning_of. by rewrite Hnan.
  - intros data Hin Hnum. rewrite Forall_forall in Hr.
    destruct (Hr data Hin) as [ts Hts].
    exists ts. unfold accepted, warning_of. rewrite Hts, Hnum. done.
Qed.

End ParseCsvFacts.

Lemma three_rows_readable : Forall (readable dayjs_sample) (data_events three_rows).
Proof. repeat constructor; by eexists. Qed.

Lemma parseCsv_drops_nan_rows_witness :
  Forall (readable dayjs_sample) (data_events three_rows)
  /\ error_event three_rows = None
  /\ parseCsv dayjs_sample three_rows =
       (Resolved [{| timestamp := 1735689600000; consumption := Finite 5 |};
                  {| timestamp := 1735696800000; consumption := Finite 7 |}],
        [warn_prefix +:+ "bad"]).
Proof.
  split; [exact three_rows_readable | split; [reflexivity |]].
  exact (proj1 (parseCsv_drops_nan_rows dayjs_sample three_rows
                  three_rows_readable eq_refl)).
Defined.

(** C1 (as stated) fails: a row whose consumption is the text [Infinity]
    is not dropped.  [parseFloat] reads it as an infinity, which [isNaN]
    lets through, so the record is returned with a consumption that is not
    finite, and no warning is written. *)
Lemma parseCsv_keeps_infinity :
  parseFloat (Some "Infinity") = Infinity false
  /\ isFinite (parseFloat (Some "Infinity")) = false
  /\ parseCsv dayjs_sample infinity_row
     = (Resolved [{| timestamp := 1735689600000;
                     consumption := Infinity false |}], []).
Proof. vm_compute. done. Qed.

(** C7: the failing input.  The only data row of the file
    [timestamp,consumption / not-a-date,abc] fails validation (its
    consumption is [NaN]), yet the parse does not return the empty
    sequence: the timestamp is converted before the consumption is looked
    at, [toISOString()] throws on the invalid date, and the promise is
    never resolved. *)
Lemma parseCsv_invalid_row_throws :
  isNaN (parseFloat (Some "abc")) = true
  /\ dayjs_sample (Some "not-a-date") = None
  /\ fst (parseCsv dayjs_sample invalid_row)
     = Uncaught "RangeError: Invalid time value".
Proof. vm_compute. done. Qed.

(** *** recordsToCsv *)

Lemma includes_char c s :
  includes s (char_string c) = true <-> In c (list_ascii_of_string s).
Proof.
  induction s as [|a s IH]; simpl.
  - split; [discriminate | tauto].
  - destruct (ascii_dec c a) as [->|Hne]; simpl.
    + destruct s; simpl; tauto.
    + rewrite IH. split; [tauto | intros [H|H]; [congruence | exact H]].
Qed.

Lemma includes_char_false c s :
  includes s (char_string c) = false <-> ~ In c (list_ascii_of_string s).
Proof.
  rewrite <- includes_char. destruct (includes s (char_string c)).
  - split; [discriminate | intros H; by destruct H].
  - split; [discriminate | reflexivity].
Qed.

Lemma replace_all_double_quotes s :
  replace_all dquote (char_string dquote +:+ char_string dquote) s
  = double_quotes s.
Proof.
  unfold double_quotes. induction s as [|a s IH]; simpl; [done|].
  destruct (Ascii.eqb a dquote) eqn:E; simpl; rewrite IH.
  - apply Ascii.eqb_eq in E. by subst a.
  - done.
Qed.

Lemma has_comma_or_quote_includes s :
  has_comma_or_quote s <->
  includes s (char_string comma) || includes s (char_string dquote) = true.
Proof.
  unfold has_comma_or_quote.
  rewrite orb_true_iff, !includes_char. tauto.
Qed.

Lemma csv_quote_quoted s : has_comma_or_quote s -> csv_quote s = quoted s.
Proof.
  intros H. unfold csv_quote.
  replace (existsb _ _) with true; [done|].
  symmetry. apply existsb_exists.
  destruct H as [H|H]; [exists comma | exists dquote]; by split.
Qed.

Lemma csv_quote_verbatim s : ~ has_comma_or_quote s -> csv_quote s = s.
Proof.
  intros H. unfold csv_quote.
  destruct (existsb _ _) eqn:E; [|done]. exfalso. apply H.
  apply existsb_exists in E as (c & Hc & Hcq).
  apply orb_true_iff in Hcq as [Hq|Hq];
    apply Ascii.eqb_eq in Hq; subst c; [by left | by right].
Qed.

Section RecordsToCsvFacts.

Variable number_to_string : number -> string.
Variable date_to_string : Z -> string.

(** What [recordsToCsv] writes for a value is what the quoting rule
    writes for it. *)
Lemma escape_value_csv_field v :
  join_item number_to_string date_to_string (escape_value v)
  = csv_field number_to_string date_to_string v.
Proof.
  destruct v as [[s| | |]|]; try reflexivity. simpl.
  destruct (includes s (char_string comma)
            || includes s (char_string dquote)) eqn:E.
  - apply has_comma_or_quote_includes in E.
    rewrite (csv_quote_quoted _ E). simpl.
    by rewrite replace_all_double_quotes.
  - rewrite csv_quote_verbatim; [done|].
    intros H. apply has_comma_or_quote_includes in H. congruence.
Qed.

(** C8. For every list of records and headers, [recordsToCsv] writes the
    line of the headers and then, for every record, the fields found under
    the headers, each written by the same quoting rule whatever its
    column: a field that contains a comma or a double quote is written
    between double quotes with each of its double quotes doubled, a field
    that contains neither is written as it is. *)
Theorem recordsToCsv_quoting (records : list (gmap string value))
    (headers : list string) :
  recordsToCsv number_to_string date_to_string records headers
  = csv_text number_to_string date_to_string records headers
  /\ (forall (record : gmap string value) (header s : string),
        record !! header = Some (VString s) ->
        (has_comma_or_quote s ->
         csv_field number_to_string date_to_string (record !! header)
         = String dquote (double_quotes s +:+ char_string dquote))
        /\ (~ has_comma_or_quote s ->
            csv_field number_to_string date_to_string (record !! header) = s)).
Proof.
  split.
  - unfold recordsToCsv, csv_text. do 2 f_equal.
    apply map_ext. intros record. f_equal.
    apply map_ext. intros header. apply escape_value_csv_field.
  - intros record header s ->. simpl. split.
    + apply csv_quote_quoted.
    + apply csv_quote_verbatim.
Qed.

End RecordsToCsvFacts.

Lemma recordsToCsv_quoting_witness :
  ({[ "note" := VString "a,b" ]} : gmap string value) !! "note"
    = Some (VString "a,b")
  /\ has_comma_or_quote "a,b"
  /\ csv_field (fun _ => EmptyString) (fun _ => EmptyString)
       (({[ "note" := VString "a,b" ]} : gmap string value) !! "note")
     = String dquote (double_quotes "a,b" +:+ char_string dquote).
Proof.
  assert (H1 : ({[ "note" := VString "a,b" ]} : gmap string value) !! "note"
               = Some (VString "a,b")) by reflexivity.
  assert (H2 : has_comma_or_quote "a,b") by (left; simpl; tauto).
  split; [exact H1 | split; [exact H2 |]].
  exact (proj1 (proj2 (recordsToCsv_quoting (fun _ => EmptyString)
                         (fun _ => EmptyString) [] [])
                  _ "note"%string "a,b"%string H1) H2).
Defined.

End CsvFacts.

(** ** POST /data/upload and GET /data *)

Module DataFacts.

Import Js Csv DataRoutes.

Section UploadFacts.

Variable dayjs_utc : option string -> option Z.
Variable conflicts : list Db.row -> Z -> number -> bool.

Lemma insert_rows_count vs : forall st n st' n',
  Db.insert_rows conflicts (st, n) vs = Some (st', n') ->
  n <= n' <= n + Z.of_nat (length vs).
Proof.
  induction vs as [|[ts c] vs IH]; intros st n st' n' H; simpl in H.
  - injection H as <- <-. simpl. lia.
  - destruct (Db.check_consumption c); [|discriminate].
    destruct (conflicts (Db.energy_data st) ts c).
    + apply IH in H. simpl length. lia.
    + apply IH in H. simpl length. lia.
Qed.

Lemma insert_values_count st vs st' k :
  Db.insert_values conflicts st vs = Some (st', k) ->
  0 <= k <= Z.of_nat (length vs).
Proof. intros H. apply insert_rows_count in H. lia. Qed.

Lemma insert_batches_eq records i acc st :
  insert_batches conflicts records i acc st =
  if lt_dec i (length records) then
    match Db.insert_values conflicts st
            (batch_values (slice i (i + batchSize) records)) with
    | Some (st', rowCount) =>
        insert_batches conflicts records (i + batchSize)%nat (acc + rowCount) st'
    | None => (None, st)
    end
  else (Some acc, st).
Proof.
  rewrite insert_batches_equation_1.
  destruct (lt_dec i (length records)); simp insert_batches; [|done].
  destruct (Db.insert_values _ _ _) as [[st' k]|]; by simp insert_batches.
Qed.

Lemma chunks_skipn_cons (records : list reading) i :
  (i < length records)%nat ->
  chunks batchSize (skipn i records)
  = slice i (i + batchSize) records
    :: chunks batchSize (skipn (i + batchSize) records).
Proof.
  intros Hi. unfold slice.
  replace (i + batchSize - i)%nat with batchSize by lia.
  destruct (skipn i records) as [|x rest] eqn:E.
  - apply (f_equal length) in E. rewrite length_skipn in E. simpl in E. lia.
  - simp chunks. rewrite Nat.add_comm, <- skipn_skipn, E.
    reflexivity.
Qed.

Lemma chunks_skipn_nil (records : list reading) i :
  ~ (i < length records)%nat -> chunks batchSize (skipn i records) = [].
Proof.
  intros Hi. rewrite skipn_all2 by lia. by simp chunks.
Qed.

Lemma insert_batches_run_chunks records : forall k i acc st,
  (length records - i <= k)%nat ->
  insert_batches conflicts records i acc st =
  match run_chunks conflicts st (chunks batchSize (skipn i records)) with
  | (Some counts, st') => (Some (acc + sum_counts counts), st')
  | (None, st') => (None, st')
  end.
Proof.
  induction k as [|k IH]; intros i acc st Hk; rewrite insert_batches_eq;
    destruct (lt_dec i (length records)) as [Hi|Hi]; try lia.
  - rewrite chunks_skipn_nil by done. simpl. f_equal. f_equal. lia.
  - rewrite chunks_skipn_cons by done. cbn [run_chunks].
    destruct (Db.insert_values _ _ _) as [[st' n]|]; [|done].
    rewrite IH by (unfold batchSize; lia).
    destruct (run_chunks _ _ _) as [[counts|] st'']; simpl; [|done].
    f_equal. f_equal. lia.
  - rewrite chunks_skipn_nil by done. simpl. f_equal. f_equal. lia.
Qed.

Lemma chunks_lookup {A} (n : nat) : forall (j : nat) (l : list A),
  (1 <= n)%nat ->
  chunks n l !! j =
    if lt_dec (j * n) (length l) then Some (slice (j * n) (j * n + n) l)
    else None.
Proof.
  induction j as [|j IH]; intros l Hn.
  - destruct l as [|x l]; simp chunks; simpl; [done|].
    unfold slice. replace (n - 0)%nat with (S (pred n)) by lia. done.
  - destruct l as [|x l]; simp chunks; simpl; [done|].
    rewrite IH by done. rewrite length_skipn.
    replace (n + j * n)%nat with (S (pred n + j * n)) by lia.
    simpl length.
    destruct (lt_dec (j * n) (length l - pred n)),
             (lt_dec (S (pred n + j * n)) (S (length l))); try lia; [|done].
    f_equal. unfold slice. simpl skipn.
    rewrite skipn_skipn. f_equal; [lia|]. f_equal. lia.
Qed.

Lemma run_chunks_counts cs : forall st counts st',
  run_chunks conflicts st cs = (Some counts, st') ->
  Forall2 (fun (c : list reading) k => 0 <= k <= Z.of_nat (length c)) cs counts.
Proof.
  induction cs as [|c cs IH]; intros st counts st' H; simpl in H.
  - injection H as <- <-. constructor.
  - destruct (Db.insert_values _ _ _) as [[st1 k]|] eqn:E; [|discriminate].
    destruct (run_chunks conflicts st1 cs) as [[ks|] st2] eqn:E2;
      simpl in H; [|discriminate].
    injection H as <- <-. constructor; [|by eapply IH].
    apply insert_values_count in E. unfold batch_values in E.
    by rewrite length_map in E.
Qed.

Lemma chunks_total_length {A} (n : nat) (l : list A) :
  (1 <= n)%nat -> length (concat (chunks n l)) = length l.
Proof.
  intros Hn. funelim (chunks n l); simp chunks; [done|].
  simpl. rewrite length_app, H by done.
  rewrite length_firstn, length_skipn. lia.
Qed.

Lemma counts_le_total (cs : list (list reading)) counts :
  Forall2 (fun (c : list reading) k => 0 <= k <= Z.of_nat (length c)) cs counts ->
  0 <= sum_counts counts <= Z.of_nat (length (concat cs)).
Proof.
  induction 1 as [|c k cs ks Hk _ IH]; simpl; [lia|].
  rewrite length_app. lia.
Qed.

Lemma length_accepted rows :
  Forall (readable dayjs_utc) rows ->
  length (omap (accepted dayjs_utc) rows)
  = length (List.filter passes_validation rows).
Proof.
  induction 1 as [|d rows [ts Hts] _ IH]; [done|].
  cbn [omap list_omap List.filter].
  unfold accepted at 1, passes_validation at 1. rewrite Hts.
  destruct (isNaN _); simpl; by rewrite IH.
Qed.

(** What a successful answer tells about the run of the handler. *)
Lemma upload_ok_inv (src : csv_events) (st st' : Db.store)
    (message : string) (processed inserted : Z) :
  upload dayjs_utc conflicts (Some src) st
    = (UploadOk message processed inserted, st') ->
  Forall (readable dayjs_utc) (data_events src)
  /\ processed = Z.of_nat (length (parsed_records dayjs_utc src))
  /\ exists counts : list Z,
       run_chunks conflicts st
         (chunks batchSize (parsed_records dayjs_utc src)) = (Some counts, st')
       /\ inserted = sum_counts counts.
Proof.
  intros H. set (records := parsed_records dayjs_utc src).
  unfold upload in H.
  destruct (parseCsv dayjs_utc src) as [[recs| |] w] eqn:Ep; simpl in H;
    try (injection H; discriminate).
  apply CsvFacts.parseCsv_Resolved in Ep as (Hr & _ & -> & _).
  fold (parsed_records dayjs_utc src) in H. fold records in H.
  destruct (length records =? 0)%nat; [injection H; discriminate|].
  rewrite (insert_batches_run_chunks records (length records)) in H by lia.
  rewrite skipn_0 in H.
  destruct (run_chunks conflicts st (chunks batchSize records))
    as [[counts|] st1] eqn:Er; [|injection H; discriminate].
  injection H as _ <- <- <-.
  split; [done|]. split; [done|]. exists counts. split; [done|]. lia.
Qed.

(** C2. For every upload that is answered with the success message,
    [records_inserted] is at most [records_processed], which is at most the
    number of data rows of the file; [records_processed] is the number of
    rows that pass the validation of the parse step; [records_inserted] is
    the sum of the row counts reported by the bulk inserts, one per chunk
    of the parsed records, each count being at most the size of its chunk;
    chunk [j] is [records.slice(1000 j, 1000 j + 1000)]. *)
Theorem upload_counts (src : csv_events) (st st' : Db.store)
    (message : string) (processed inserted : Z) :
  upload dayjs_utc conflicts (Some src) st
    = (UploadOk message processed inserted, st') ->
  0 <= inserted <= processed
  /\ processed <= Z.of_nat (length (data_events src))
  /\ processed
     = Z.of_nat (length (List.filter passes_validation (data_events src)))
  /\ exists counts : list Z,
       run_chunks conflicts st
         (chunks batchSize (parsed_records dayjs_utc src)) = (Some counts, st')
       /\ inserted = sum_counts counts
       /\ Forall2 (fun (c : list reading) k => 0 <= k <= Z.of_nat (length c))
            (chunks batchSize (parsed_records dayjs_utc src)) counts
       /\ batchSize = 1000%nat
       /\ forall (j : nat) (c : list reading),
            chunks batchSize (parsed_records dayjs_utc src) !! j = Some c ->
            c = slice (j * batchSize) (j * batchSize + batchSize)
                  (parsed_records dayjs_utc src).
Proof.
  intros H. apply upload_ok_inv in H as (Hr & -> & counts & Er & ->).
  pose proof (run_chunks_counts _ _ _ _ Er) as Hc.
  pose proof (counts_le_total _ _ Hc) as Hs.
  rewrite chunks_total_length in Hs by (unfold batchSize; lia).
  assert (Hlen : length (parsed_records dayjs_utc src)
                 = length (List.filter passes_validation (data_events src)))
    by (by apply length_accepted).
  pose proof (filter_length_le passes_validation (data_events src)) as Hle.
  split; [lia|]. split; [lia|]. split; [lia|].
  exists counts. split; [done|]. split; [done|]. split; [done|].
  split; [done|].
  intros j c Hj. rewrite chunks_lookup in Hj by (unfold batchSize; lia).
  destruct (lt_dec _ _); [|discriminate]. by injection Hj as <-.
Qed.

End UploadFacts.

(** With the schema as declared no row conflicts: every statement reports
    the size of its chunk, and a successful upload inserts every record it
    processed. *)
Lemma insert_rows_no_conflict vs : forall st n st' n',
  Db.insert_rows Db.no_conflict (st, n) vs = Some (st', n') ->
  n' = n + Z.of_nat (length vs).
Proof.
  induction vs as [|[ts c] vs IH]; intros st n st' n' H; simpl in H.
  - injection H as <- <-. simpl. lia.
  - destruct (Db.check_consumption c); [|discriminate].
    unfold Db.no_conflict in H at 1. apply IH in H. simpl length. lia.
Qed.

Lemma run_chunks_no_conflict cs : forall st counts st',
  run_chunks Db.no_conflict st cs = (Some counts, st') ->
  sum_counts counts = Z.of_nat (length (concat cs)).
Proof.
  induction cs as [|c cs IH]; intros st counts st' H; simpl in H.
  - by injection H as <- <-.
  - destruct (Db.insert_values _ _ _) as [[st1 k]|] eqn:E; [|discriminate].
    destruct (run_chunks Db.no_conflict st1 cs) as [[ks|] st2] eqn:E2;
      simpl in H; [|discriminate].
    injection H as <- <-. apply IH in E2.
    apply insert_rows_no_conflict in E. unfold batch_values in E.
    rewrite length_map in E. simpl. rewrite length_app. lia.
Qed.

Lemma upload_no_conflict_inserts_all dayjs_utc src st st' message
    processed inserted :
  upload dayjs_utc Db.no_conflict (Some src) st
    = (UploadOk message processed inserted, st') ->
  inserted = processed.
Proof.
  intros H. apply upload_ok_inv in H as (_ & -> & counts & Er & ->).
  rewrite (run_chunks_no_conflict _ _ _ _ Er).
  by rewrite chunks_total_length by (unfold batchSize; lia).
Qed.

Lemma upload_counts_witness :
  upload dayjs_sample Db.no_conflict (Some three_rows) (Db.empty_store 1)
  = (UploadOk "Data uploaded successfully" 2 2,
     {| Db.energy_data :=
          [ {| Db.id := 1; Db.timestamp := 1735689600000000;
               Db.consumption := Finite 5 |};
            {| Db.id := 2; Db.timestamp := 1735696800000000;
               Db.consumption := Finite 7 |} ];
        Db.next_id := 3 |})
  /\ 0 <= 2 <= 2.
Proof.
  split; [reflexivity|].
  exact (proj1 (upload_counts dayjs_sample Db.no_conflict three_rows
                  (Db.empty_store 1) _ _ 2 2 eq_refl)).
Defined.

(** *** GET /data *)

#[local] Instance ts_desc_trans : Transitive Db.ts_desc.
Proof. unfold Db.ts_desc. intros a b c. lia. Qed.
#[local] Instance ts_desc_total : Total Db.ts_desc.
Proof. unfold Db.ts_desc. intros a b. lia. Qed.
#[local] Instance ts_asc_trans : Transitive Db.ts_asc.
Proof. unfold Db.ts_asc. intros a b c. lia. Qed.
#[local] Instance ts_asc_total : Total Db.ts_asc.
Proof. unfold Db.ts_asc. intros a b. lia. Qed.

Lemma StronglySorted_take {A} (R : relation A) n l :
  StronglySorted R l -> StronglySorted R (take n l).
Proof.
  intros H. rewrite <- (take_drop n l) in H.
  by apply StronglySorted_app_1_l in H.
Qed.


Lemma Math_ceil_div_Z a b : 0 < b -> Math_ceil_div a b = - ((- a) / b).
Proof.
  intros Hb. unfold Math_ceil_div, Qceiling.
  rewrite (Zdiv_Qdiv (- a) b). f_equal. apply Qfloor_comp.
  rewrite inject_Z_opp. field.
  intros H. unfold Qeq in H. simpl in H. lia.
Qed.

(** The ceiling of [a / b]: the least [c] with [a <= c * b]. *)
Lemma Math_ceil_div_spec a b :
  0 < b ->
  (Math_ceil_div a b - 1) * b < a <= Math_ceil_div a b * b.
Proof.
  intros Hb. rewrite Math_ceil_div_Z by done.
  pose proof (Z.div_mod (- a) b ltac:(lia)).
  pose proof (Z.mod_pos_bound (- a) b Hb). nia.
Qed.

Lemma in_range_spec from to r :
  Db.in_range from to r = true <->
  (forall f, from = Some f -> f <= Db.timestamp r)
  /\ (forall t, to = Some t -> Db.timestamp r <= t).
Proof.
  unfold Db.in_range. rewrite andb_true_iff.
  destruct from as [f|], to as [t|]; rewrite ?Z.leb_le; split.
  all: intros [H1 H2]; split.
  all: try (intros x [= <-]; assumption).
  all: try (intros x [=]).
  all: first [exact (H1 _ eq_refl) | exact (H2 _ eq_refl) | reflexivity].
Qed.

Lemma effective_limit_default q :
  q_limit q = None \/ parseInt (q_limit q) 0 = None ->
  effective_limit q = 100.
Proof.
  unfold effective_limit. intros [->| ->]; reflexivity.
Qed.

Lemma effective_limit_valid q L :
  parseInt (q_limit q) 0 = Some L -> 1 <= L <= 10000 -> effective_limit q = L.
Proof.
  unfold effective_limit. intros -> HL. simpl.
  destruct (L =? 0) eqn:E; [lia | done].
Qed.

Lemma effective_page_ge q : 1 <= effective_page q.
Proof.
  unfold effective_page. destruct (parseInt (q_page q) 0) as [p|]; simpl; [|lia].
  destruct (p =? 0) eqn:E; simpl; [lia|].
  destruct (p <? 1) eqn:E2; lia.
Qed.

Lemma effective_page_requested q p :
  parseInt (q_page q) 0 = Some p -> 1 <= p -> effective_page q = p.
Proof.
  unfold effective_page. intros -> Hp. simpl.
  destruct (p =? 0) eqn:E; simpl; [lia|].
  destruct (p <? 1) eqn:E2; lia.
Qed.

(** The body of a successful answer, for a limit within bounds and an
    offset the database accepts. *)
Lemma get_data_ok st q :
  1 <= effective_limit q <= 10000 ->
  (effective_page q - 1) * effective_limit q <= int8_max ->
  get_data st q =
    let matching := Db.where_range (q_from q) (q_to q) (Db.energy_data st) in
    let rows :=
      Db.limit_offset (effective_limit q)
        ((effective_page q - 1) * effective_limit q)
        (Db.order_by_timestamp_desc matching) in
    DataOk {| data := rows;
              count := Z.of_nat (length rows);
              limit := effective_limit q;
              page := effective_page q;
              total := Z.of_nat (length matching);
              totalPages :=
                Math_ceil_div (Z.of_nat (length matching)) (effective_limit q) |}.
Proof.
  intros HL Ho. unfold get_data.
  destruct (effective_limit q <? 1) eqn:E1; [lia|].
  destruct (10000 <? effective_limit q) eqn:E2; [lia|]. cbn [orb].
  destruct (int8_max <? (effective_page q - 1) * effective_limit q) eqn:E3;
    [lia|]. reflexivity.
Qed.

Lemma limit_offset_beyond n k (rows : list Db.row) :
  Z.of_nat (length rows) <= k -> Db.limit_offset n k rows = [].
Proof.
  intros H. unfold Db.limit_offset. rewrite skipn_all2 by lia. by rewrite firstn_nil.
Qed.

(** Pagination, for an offset the database accepts.  For a request whose
    limit is valid (absent, which gives 100, or read by [parseInt] as an
    integer from 1 to 10000), the answer is successful; its [total] is
    the number of stored rows within the bounds, its [totalPages] the
    ceiling of [total / limit]; and a page above [totalPages] is answered
    with that page number and an empty [data] array. *)
Lemma get_data_pagination_in_range (st : Db.store) (q : data_query) (L : Z) :
  (q_limit q = None /\ L = 100)
  \/ (parseInt (q_limit q) 0 = Some L /\ 1 <= L <= 10000) ->
  (effective_page q - 1) * L <= int8_max ->
  exists body : data_page,
    get_data st q = DataOk body
    /\ limit body = L
    /\ total body
       = Z.of_nat (length (List.filter (Db.in_range (q_from q) (q_to q))
                             (Db.energy_data st)))
    /\ totalPages body = Math_ceil_div (total body) L
    /\ (totalPages body - 1) * L < total body <= totalPages body * L
    /\ (forall p : Z, parseInt (q_page q) 0 = Some p ->
          totalPages body < p ->
          page body = p /\ data body = [] /\ count body = 0).
Proof.
  intros HL Ho.
  assert (HeL : effective_limit q = L /\ 1 <= L <= 10000).
  { destruct HL as [[Hn ->]|[Hp Hb]].
    - split; [apply effective_limit_default; by left | lia].
    - split; [by apply effective_limit_valid | done]. }
  destruct HeL as [HeL Hb].
  rewrite get_data_ok by (rewrite HeL; done). rewrite HeL.
  eexists. split; [reflexivity|]. cbn [limit total totalPages page data count].
  split; [done|]. split; [done|]. split; [done|].
  pose proof (Math_ceil_div_spec
    (Z.of_nat (length (Db.where_range (q_from q) (q_to q) (Db.energy_data st))))
    L ltac:(lia)) as Hc.
  split; [exact Hc|].
  intros p Hp Hgt.
  assert (1 <= p).
  { assert (0 <= Math_ceil_div (Z.of_nat (length (Db.where_range (q_from q) (q_to q)
       (Db.energy_data st)))) L) by nia. lia. }
  rewrite (effective_page_requested q p) by done.
  rewrite limit_offset_beyond; [done|].
  unfold Db.order_by_timestamp_desc.
  rewrite (Permutation_length (merge_sort_Permutation Db.ts_desc _)). nia.
Qed.

(** C5: the failing input.  The table holds three rows, so that
    [?limit=100] has one page; the request for page 93000000000000000
    asks for a page above [totalPages], with a valid limit.  It is not
    answered with an empty [data] array: the offset, 9299999999999999900,
    is above the greatest [bigint], the database refuses the query, and
    the answer is the 500 of the [catch].  A page above [totalPages] whose
    offset is a [bigint] is answered with an empty [data] array
    ([get_data_pagination_in_range]). *)
Theorem get_data_far_page_fails :
  parseInt (q_limit far_page) 0 = Some 100
  /\ parseInt (q_page far_page) 0 = Some 93000000000000000
  /\ Math_ceil_div
       (Z.of_nat (length (Db.where_range None None
                            (Db.energy_data Db.tied_store)))) 100 = 1
  /\ get_data Db.tied_store far_page
     = DataError 500 "Internal server error".
Proof. vm_compute. done. Qed.

Lemma get_data_limit_in_bounds st q body :
  get_data st q = DataOk body -> 1 <= effective_limit q <= 10000.
Proof.
  unfold get_data.
  destruct (effective_limit q <? 1) eqn:E1; [discriminate|].
  destruct (10000 <? effective_limit q) eqn:E2; [discriminate|]. lia.
Qed.

Lemma get_data_offset_in_bounds st q body :
  get_data st q = DataOk body ->
  (effective_page q - 1) * effective_limit q <= int8_max.
Proof.
  unfold get_data.
  destruct ((effective_limit q <? 1) || (10000 <? effective_limit q));
    [discriminate|].
  destruct (int8_max <? (effective_page q - 1) * effective_limit q) eqn:E;
    [discriminate|]. lia.
Qed.

Lemma export_rows_ascending st e :
  StronglySorted Db.ts_asc (ExportRoutes.export_data_rows st e).
Proof.
  unfold ExportRoutes.export_data_rows, Db.order_by_timestamp_asc.
  destruct (ExportRoutes.export_limit _).
  - apply StronglySorted_take, StronglySorted_merge_sort; apply _.
  - apply StronglySorted_merge_sort; apply _.
Qed.


(** The default of the limit, for an offset the database accepts.  When
    the [limit] parameter is absent or does not parse as a number, the
    request is answered successfully with the limit 100; and the 400
    answer is given only when [limit] parses to a number below 1 or above
    10000. *)
Lemma get_data_limit_default_in_range (st : Db.store) (q : data_query) :
  (q_limit q = None \/ parseInt (q_limit q) 0 = None ->
   (effective_page q - 1) * 100 <= int8_max ->
   exists body : data_page, get_data st q = DataOk body /\ limit body = 100)
  /\ (forall (error : string),
        get_data st q = DataError 400 error ->
        error = "Limit must be between 1 and 10000"%string
        /\ exists n : Z, parseInt (q_limit q) 0 = Some n
                         /\ (n < 1 \/ 10000 < n)).
Proof.
  split.
  - intros Habs Ho. pose proof (effective_limit_default q Habs) as HL.
    rewrite get_data_ok by (rewrite HL; lia).
    eexists. split; [reflexivity|]. exact HL.
  - intros error H. unfold get_data in H.
    destruct ((effective_limit q <? 1) || (10000 <? effective_limit q)) eqn:E.
    + injection H as <-. split; [done|].
      unfold effective_limit in E.
      destruct (parseInt (q_limit q) 0) as [n|]; simpl in E; [|discriminate].
      destruct (n =? 0) eqn:E0; [discriminate|].
      exists n. split; [done|]. apply orb_true_iff in E. lia.
    + destruct (int8_max <? _); discriminate.
Qed.



End DataFacts.

(** ** GET /metrics and GET /metrics/summary *)

Module MetricsFacts.

Import Js MetricsRoutes.

(** *** The order of float8 *)

Ltac float8_cases :=
  unfold Db.float8_le, Db.float8_lt, Db.float8_eq, Db.float8_compare;
  repeat match goal with
         | x : number |- _ => destruct x as [|[]|?]
         end;
  simpl; try done;
  repeat match goal with
         | |- context [Qcompare ?p ?q] => destruct (Qcompare_spec p q)
         end;
  try done; try lra.

Lemma float8_le_refl x : Db.float8_le x x = true.
Proof. float8_cases. Qed.

Lemma float8_le_trans x y z :
  Db.float8_le x y = true -> Db.float8_le y z = true -> Db.float8_le x z = true.
Proof. float8_cases. Qed.

Lemma float8_le_total x y : Db.float8_le x y = true \/ Db.float8_le y x = true.
Proof. float8_cases; auto. Qed.

Lemma float8_lt_not_le x y : Db.float8_lt x y = negb (Db.float8_le y x).
Proof. float8_cases. Qed.

Lemma float8_eq_le x y :
  Db.float8_eq x y = true <->
  Db.float8_le x y = true /\ Db.float8_le y x = true.
Proof. float8_cases; split; try done; intros [? ?]; try done; lra. Qed.

Lemma float8_compare_Gt x y :
  Db.float8_compare x y = Gt <-> Db.float8_le x y = false.
Proof. unfold Db.float8_le. destruct (Db.float8_compare x y); split; done. Qed.

Lemma float8_compare_Eq x y :
  Db.float8_compare x y = Eq <-> Db.float8_eq x y = true.
Proof. unfold Db.float8_eq. destruct (Db.float8_compare x y); split; done. Qed.

Lemma float8_compare_Lt x y :
  Db.float8_compare x y = Lt <-> Db.float8_le y x = false.
Proof. float8_cases; split; try done; lra. Qed.

(** *** MAX and the order of the peak *)

Lemma fold_max_spec xs : forall x,
  let m := fold_left (fun m y => if Db.float8_lt m y then y else m) xs x in
  m ∈ x :: xs /\ forall y, y ∈ x :: xs -> Db.float8_le y m = true.
Proof.
  induction xs as [|z xs IH]; intros x; simpl.
  - split; [by left|]. intros y Hy. apply list_elem_of_singleton in Hy as ->.
    apply float8_le_refl.
  - destruct (Db.float8_lt x z) eqn:E.
    + destruct (IH z) as [Hin Hmax]. split; [by right|].
      intros y Hy. apply elem_of_cons in Hy as [->|Hy]; [|by apply Hmax].
      apply float8_le_trans with z; [|apply Hmax; by left].
      rewrite float8_lt_not_le in E. apply negb_true_iff in E.
      destruct (float8_le_total x z); congruence.
    + destruct (IH x) as [Hin Hmax]. split.
      * apply elem_of_cons in Hin as [->|Hin]; [by left|by do 2 right].
      * intros y Hy. apply elem_of_cons in Hy as [->|Hy]; [apply Hmax; by left|].
        apply elem_of_cons in Hy as [->|Hy]; [|apply Hmax; by right].
        apply float8_le_trans with x; [|apply Hmax; by left].
        rewrite float8_lt_not_le in E. by apply negb_false_iff in E.
Qed.

(** [MAX] over at least one row is one of the values and bounds them all. *)
Lemma sql_max_spec xs m :
  Db.sql_max xs = Some m ->
  m ∈ xs /\ forall y, y ∈ xs -> Db.float8_le y m = true.
Proof.
  destruct xs as [|x xs]; [discriminate|]. simpl. intros [= <-].
  apply fold_max_spec.
Qed.

Lemma sql_max_is_Some xs : xs <> [] -> is_Some (Db.sql_max xs).
Proof. destruct xs; [done|]. intros _. by eexists. Qed.

Lemma peak_before_spec a b :
  Db.peak_before a b = true <->
  Db.float8_le (Db.consumption b) (Db.consumption a) = true
  /\ (Db.float8_le (Db.consumption a) (Db.consumption b) = true ->
      Db.timestamp b <= Db.timestamp a).
Proof.
  unfold Db.peak_before.
  destruct (Db.float8_compare (Db.consumption a) (Db.consumption b)) eqn:E.
  - apply float8_compare_Eq, float8_eq_le in E as [H1 H2].
    rewrite Z.leb_le. tauto.
  - apply float8_compare_Lt in E. split; [done|]. intros [H _]. congruence.
  - apply float8_compare_Gt in E. split; [|done]. intros _.
    split; [|congruence].
    destruct (float8_le_total (Db.consumption a) (Db.consumption b)); congruence.
Qed.

#[local] Instance peak_order_trans : Transitive Db.peak_order.
Proof.
  intros a b c. unfold Db.peak_order. rewrite !peak_before_spec.
  intros [H1 H2] [H3 H4]. split.
  - by eapply float8_le_trans.
  - intros H5.
    assert (Db.float8_le (Db.consumption a) (Db.consumption b) = true)
      by (by eapply float8_le_trans).
    assert (Db.float8_le (Db.consumption b) (Db.consumption c) = true)
      by (by eapply float8_le_trans).
    specialize (H2 ltac:(done)). specialize (H4 ltac:(done)). lia.
Qed.

#[local] Instance peak_order_total : Total Db.peak_order.
Proof.
  intros a b. unfold Db.peak_order. rewrite !peak_before_spec.
  destruct (Db.float8_le (Db.consumption a) (Db.consumption b)) eqn:E1,
           (Db.float8_le (Db.consumption b) (Db.consumption a)) eqn:E2.
  - destruct (Z.le_ge_cases (Db.timestamp a) (Db.timestamp b)); [right|left]; done.
  - right. done.
  - left. done.
  - destruct (float8_le_total (Db.consumption a) (Db.consumption b)); congruence.
Qed.

(** The first row in the order of the peak comes before every row. *)
Lemma head_order_by_peak rows r :
  head (Db.order_by_peak rows) = Some r ->
  r ∈ rows /\ forall r', r' ∈ rows -> Db.peak_before r r' = true.
Proof.
  unfold Db.order_by_peak. intros H.
  pose proof (merge_sort_Permutation Db.peak_order rows) as Hp.
  pose proof (StronglySorted_merge_sort Db.peak_order rows) as Hs.
  destruct (merge_sort Db.peak_order rows) as [|x l]; [discriminate|].
  injection H as ->. split.
  - rewrite <- Hp. by left.
  - intros r' Hr'. rewrite <- Hp in Hr'.
    apply elem_of_cons in Hr' as [->|Hr'].
    + apply peak_before_spec. split; [apply float8_le_refl|lia].
    + apply StronglySorted_inv in Hs as [_ Hall].
      rewrite Forall_forall in Hall. by apply Hall.
Qed.

Lemma head_order_by_peak_is_Some rows :
  rows <> [] -> is_Some (head (Db.order_by_peak rows)).
Proof.
  intros Hne. unfold Db.order_by_peak.
  pose proof (merge_sort_Permutation Db.peak_order rows) as Hp.
  destruct (merge_sort Db.peak_order rows); [|by eexists].
  by apply Permutation_nil_l in Hp.
Qed.

(** *** Rounding at the reporting boundary *)

Lemma round2_Finite q :
  round2 (Finite q)
  = Finite (Qred (inject_Z (Qfloor (Qred (q * 100) + (1 # 2))) / 100)).
Proof. reflexivity. Qed.

Lemma round2_or_zero x : isNaN x = false -> round2 (or_zero x) = round2 x.
Proof.
  destruct x as [|b|q]; [discriminate|done|]. intros _. simpl or_zero.
  destruct (Qis_zero q) eqn:E; [|done].
  apply Qeq_bool_iff in E. rewrite !round2_Finite.
  do 2 f_equal. f_equal. f_equal. f_equal. f_equal.
  apply Qred_complete. by rewrite E.
Qed.

(** C3 (as amended). For every non-empty reading store whose consumption
    values are numbers, [peak_consumption] is the maximum consumption over
    the stored rows rounded to two decimals, [Math.round(100 m) / 100];
    [peak_timestamp] is the timestamp of a stored row whose consumption is
    that maximum, and no stored row with the maximum consumption has a
    later timestamp. *)
Theorem get_metrics_peak (st : Db.store) :
  Db.energy_data st <> [] ->
  Forall (fun r => isNaN (Db.consumption r) = false) (Db.energy_data st) ->
  exists (m : number) (r : Db.row),
    Db.sql_max (map Db.consumption (Db.energy_data st)) = Some m
    /\ m ∈ map Db.consumption (Db.energy_data st)
    /\ (forall r', r' ∈ Db.energy_data st ->
          Db.float8_le (Db.consumption r') m = true)
    /\ peak_consumption (get_metrics st) = round2 m
    /\ r ∈ Db.energy_data st
    /\ peak_timestamp (get_metrics st) = Some (Db.timestamp r)
    /\ Db.float8_eq (Db.consumption r) m = true
    /\ (forall r', r' ∈ Db.energy_data st ->
          Db.float8_eq (Db.consumption r') m = true ->
          Db.timestamp r' <= Db.timestamp r).
Proof.
  intros Hne Hnum.
  destruct (sql_max_is_Some (map Db.consumption (Db.energy_data st)))
    as [m Hm]; [by destruct (Db.energy_data st)|].
  destruct (head_order_by_peak_is_Some _ Hne) as [r Hr].
  pose proof (sql_max_spec _ _ Hm) as [Hin Hmax].
  pose proof (head_order_by_peak _ _ Hr) as [Hrin Hfirst].
  assert (Hbound : forall r', r' ∈ Db.energy_data st ->
                     Db.float8_le (Db.consumption r') m = true).
  { intros r' Hr'. apply Hmax. apply list_elem_of_fmap. by exists r'. }
  assert (Hrm : Db.float8_eq (Db.consumption r) m = true).
  { apply float8_eq_le. split; [by apply Hbound|].
    apply list_elem_of_fmap in Hin as (r0 & -> & Hr0).
    by apply (proj1 (peak_before_spec r r0)), Hfirst. }
  exists m, r. split; [done|]. split; [done|]. split; [done|].
  split.
  { unfold get_metrics, metrics_query. cbn [head default peak_consumption
      r_peak_consumption]. rewrite Hm. cbn [Db.coalesce0 default].
    apply round2_or_zero.
    apply list_elem_of_fmap in Hin as (r0 & -> & Hr0).
    rewrite Forall_forall in Hnum. by apply Hnum. }
  split; [done|]. split.
  { unfold get_metrics, metrics_query. cbn [head default peak_timestamp
      r_peak_timestamp]. by rewrite Hr. }
  split; [done|].
  intros r' Hr' Heq.
  apply (proj1 (peak_before_spec r r')); [by apply Hfirst|].
  apply float8_eq_le in Hrm as [H1 _]. apply float8_eq_le in Heq as [_ H2].
  by eapply float8_le_trans.
Qed.

Lemma get_metrics_peak_witness :
  Db.energy_data Db.tied_store <> []
  /\ Forall (fun r => isNaN (Db.consumption r) = false) (Db.energy_data Db.tied_store)
  /\ exists (m : number) (r : Db.row),
       Db.sql_max (map Db.consumption (Db.energy_data Db.tied_store)) = Some m
       /\ m ∈ map Db.consumption (Db.energy_data Db.tied_store)
       /\ (forall r', r' ∈ Db.energy_data Db.tied_store ->
             Db.float8_le (Db.consumption r') m = true)
       /\ peak_consumption (get_metrics Db.tied_store) = round2 m
       /\ r ∈ Db.energy_data Db.tied_store
       /\ peak_timestamp (get_metrics Db.tied_store) = Some (Db.timestamp r)
       /\ Db.float8_eq (Db.consumption r) m = true
       /\ (forall r', r' ∈ Db.energy_data Db.tied_store ->
             Db.float8_eq (Db.consumption r') m = true ->
             Db.timestamp r' <= Db.timestamp r).
Proof.
  assert (H1 : Db.energy_data Db.tied_store <> []) by discriminate.
  assert (H2 : Forall (fun r => isNaN (Db.consumption r) = false)
                 (Db.energy_data Db.tied_store))
    by (repeat constructor).
  split; [exact H1 | split; [exact H2 |]].
  exact (get_metrics_peak Db.tied_store H1 H2).
Defined.

(** C3 (as stated) fails: with the single reading 0.125 the maximum
    consumption is 0.125, and [peak_consumption] is 0.13. *)
Lemma get_metrics_peak_rounded :
  Db.sql_max (map Db.consumption (Db.energy_data Db.eighth_store))
  = Some (Finite (1 # 8))
  /\ peak_consumption (get_metrics Db.eighth_store) = Finite (13 # 100)
  /\ Db.float8_eq (Finite (13 # 100)) (Finite (1 # 8)) = false.
Proof. vm_compute. done. Qed.

(** C6. On an empty reading store GET /metrics answers [count_points = 0],
    0 for the total, the average and the peak, and [null] for
    [peak_timestamp]; GET /metrics/summary answers 0 for the minimum, the
    maximum, the standard deviation and the days of data, and [null] for
    the earliest and the latest timestamp. *)
Theorem metrics_of_empty_store (sqrt : Q -> Q) (next : Z) :
  get_metrics (Db.empty_store next)
  = {| count_points := Finite 0;
       total_consumption := Finite 0;
       avg_consumption := Finite 0;
       peak_consumption := Finite 0;
       peak_timestamp := None |}
  /\ get_metrics_summary sqrt (Db.empty_store next)
     = {| earliest_timestamp := None;
          latest_timestamp := None;
          min_consumption := Finite 0;
          max_consumption := Finite 0;
          consumption_stddev := Finite 0;
          days_of_data := Finite 0 |}.
Proof. split; reflexivity. Qed.

End MetricsFacts.

(** ** GET /export/data.csv *)

Module ExportFacts.

Import Js ExportRoutes.

(** C4: the failing input.  A reading at 2025-01-01T00:00:00.500Z and the
    same reading at 2025-01-01T00:00:00.000Z are different snapshots, yet
    the exporter writes the same CSV for both: the timestamp reaches
    [recordsToCsv] as a date, is not a string, and is written by the
    string conversion of [join], which stops at the second.  Whatever the
    parse step does with that text, it returns the same pairs for both
    snapshots, so for one of them not the pairs of the snapshot. *)
Theorem export_drops_milliseconds (number_to_string : number -> string)
    (second_text : Z -> string) :
  export_data_csv number_to_string (Date_toString second_text)
    Db.half_second_store export_all
  = export_data_csv number_to_string (Date_toString second_text)
      Db.whole_second_store export_all
  /\ Db.readings Db.half_second_store <> Db.readings Db.whole_second_store
  /\ forall parse : string -> list (Z * number),
       ~ (parse (export_data_csv number_to_string (Date_toString second_text)
                   Db.half_second_store export_all)
            = Db.readings Db.half_second_store
          /\ parse (export_data_csv number_to_string (Date_toString second_text)
                      Db.whole_second_store export_all)
               = Db.readings Db.whole_second_store).
Proof.
  assert (Heq : export_data_csv number_to_string (Date_toString second_text)
                  Db.half_second_store export_all
                = export_data_csv number_to_string (Date_toString second_text)
                    Db.whole_second_store export_all) by reflexivity.
  assert (Hne : Db.readings Db.half_second_store
                <> Db.readings Db.whole_second_store) by discriminate.
  split; [exact Heq|]. split; [exact Hne|].
  intros parse [H1 H2]. rewrite Heq, H2 in H1. by apply Hne.
Qed.

End ExportFacts.

(** ** More on parseCsv and POST /data/upload *)

Module IngestFacts.

Import Js Csv DataRoutes CsvSamples.

Section ParseMore.

Variable dayjs_utc : option string -> option Z.

Lemma accepted_xor_warning data :
  readable dayjs_utc data ->
  (length (option_list (accepted dayjs_utc data))
   + length (option_list (warning_of data)) = 1)%nat.
Proof.
  intros [ts Hts]. unfold accepted, warning_of. rewrite Hts.
  by destruct (isNaN _).
Qed.

(** X1. Every data row of a file that parses leaves exactly one trace:
    a record or a warning. *)
Theorem parseCsv_record_or_warning (src : csv_events) recs w :
  parseCsv dayjs_utc src = (Resolved recs, w) ->
  (length recs + length w = length (data_events src))%nat.
Proof.
  intros H. apply CsvFacts.parseCsv_Resolved in H as (Hr & _ & -> & ->).
  induction Hr as [|d rows Hd _ IH]; [done|].
  pose proof (accepted_xor_warning d Hd) as H1.
  cbn [omap list_omap length].
  destruct (accepted dayjs_utc d), (warning_of d); simpl in *; lia.
Qed.

(** X2. When csv-parse reports an error the promise is not resolved,
    whatever rows were read before; it is rejected with that error when no
    listener threw, and the records read so far are not returned. *)
Theorem parseCsv_error_rejects (src : csv_events) (err : string) :
  error_event src = Some err ->
  (forall recs, fst (parseCsv dayjs_utc src) <> Resolved recs)
  /\ (Forall (readable dayjs_utc) (data_events src) ->
      parseCsv dayjs_utc src
      = (Rejected err, omap warning_of (data_events src))).
Proof.
  intros He. split.
  - intros recs H. destruct (parseCsv dayjs_utc src) as [o w] eqn:E.
    simpl in H. subst o.
    apply CsvFacts.parseCsv_Resolved in E as (_ & Hnone & _). congruence.
  - intros Hr. unfold parseCsv.
    by rewrite (CsvFacts.on_all_data_readable _ _ _ Hr), He.
Qed.

(** X3. A file without a [consumption] column parses to no record: every
    row is dropped with the warning that names [undefined]. *)
Theorem parseCsv_missing_consumption (src : csv_events) :
  error_event src = None ->
  Forall (readable dayjs_utc) (data_events src) ->
  Forall (fun d : gmap string string => d !! "consumption" = None)
    (data_events src) ->
  parseCsv dayjs_utc src
  = (Resolved [],
     replicate (length (data_events src)) (warn_prefix +:+ "undefined")).
Proof.
  intros He Hr Hm. unfold parseCsv.
  rewrite (CsvFacts.on_all_data_readable _ _ _ Hr), He. simpl.
  f_equal.
  - f_equal. induction Hm as [|d rows Hd _ IH]; [done|].
    inversion Hr; subst. cbn [omap list_omap].
    unfold accepted at 1. rewrite Hd.
    destruct (dayjs_utc (d !! "timestamp")); simpl; by apply IH.
  - induction Hm as [|d rows Hd _ IH]; [done|].
    inversion Hr; subst. cbn [omap list_omap].
    unfold warning_of at 1. rewrite Hd. simpl. f_equal. by apply IH.
Qed.

End ParseMore.

Lemma no_consumption_column_readable :
  Forall (readable dayjs_sample) (data_events no_consumption_column).
Proof. repeat constructor; by eexists. Qed.

Lemma parseCsv_record_or_warning_witness :
  parseCsv dayjs_sample three_rows
  = (Resolved [{| timestamp := 1735689600000; consumption := Finite 5 |};
               {| timestamp := 1735696800000; consumption := Finite 7 |}],
     [warn_prefix +:+ "bad"])
  /\ (2 + 1 = 3)%nat.
Proof.
  split; [reflexivity|].
  exact (parseCsv_record_or_warning dayjs_sample three_rows _ _ eq_refl).
Defined.

Lemma parseCsv_error_rejects_witness :
  error_event {| data_events := data_events three_rows;
                 error_event := Some "Invalid Record Length" |}
  = Some "Invalid Record Length"%string
  /\ forall recs,
       fst (parseCsv dayjs_sample
              {| data_events := data_events three_rows;
                 error_event := Some "Invalid Record Length" |})
       <> Resolved recs.
Proof.
  split; [reflexivity|].
  exact (proj1 (parseCsv_error_rejects dayjs_sample
                  {| data_events := data_events three_rows;
                     error_event := Some "Invalid Record Length" |}
                  "Invalid Record Length" eq_refl)).
Defined.

Lemma parseCsv_missing_consumption_witness :
  error_event no_consumption_column = None
  /\ parseCsv dayjs_sample no_consumption_column
     = (Resolved [], replicate 2 (warn_prefix +:+ "undefined")).
Proof.
  split; [reflexivity|].
  exact (parseCsv_missing_consumption dayjs_sample no_consumption_column
           eq_refl no_consumption_column_readable
           ltac:(repeat constructor)).
Defined.

End IngestFacts.

(** ** What an upload does to the store *)

Module UploadFacts2.

Import Js Csv DataRoutes.

Section Stores.

Variable conflicts : list Db.row -> Z -> number -> bool.

(** A statement that succeeds appends rows; it rewrites none. *)
Lemma insert_rows_appends vs : forall st n st' n',
  Db.insert_rows conflicts (st, n) vs = Some (st', n') ->
  exists new : list Db.row, Db.energy_data st' = Db.energy_data st ++ new.
Proof.
  induction vs as [|[ts c] vs IH]; intros st n st' n' H; simpl in H.
  - injection H as <- <-. exists []. by rewrite app_nil_r.
  - destruct (Db.check_consumption c); [|discriminate].
    destruct (conflicts (Db.energy_data st) ts c).
    + by apply IH in H.
    + apply IH in H as (new & H1). simpl in H1.
      eexists. by rewrite H1, <- app_assoc.
Qed.

(** The statements of the chunks, whether they all succeed or one fails:
    the store is extended, never rewritten. *)
Lemma run_chunks_appends cs : forall st r st',
  run_chunks conflicts st cs = (r, st') ->
  exists new, Db.energy_data st' = Db.energy_data st ++ new.
Proof.
  induction cs as [|c cs IH]; intros st r st' H; simpl in H.
  - injection H as <- <-. exists []. by rewrite app_nil_r.
  - destruct (Db.insert_values conflicts st (batch_values c))
      as [[st1 k]|] eqn:E.
    + destruct (run_chunks conflicts st1 cs) as [r2 st2] eqn:E2.
      injection H as <- <-.
      apply IH in E2 as [new2 Hn2].
      apply insert_rows_appends in E as (new1 & Hn1).
      exists (new1 ++ new2). by rewrite Hn2, Hn1, app_assoc.
    + injection H as <- <-. exists []. by rewrite app_nil_r.
Qed.

Variable dayjs_utc : option string -> option Z.

(** The store an upload leaves is the store of [run_chunks] over the
    chunks of the parsed records, or the store it was given. *)
Lemma upload_store file st :
  snd (upload dayjs_utc conflicts file st) = st
  \/ exists src r,
       file = Some src
       /\ run_chunks conflicts st
            (chunks batchSize (parsed_records dayjs_utc src))
          = (r, snd (upload dayjs_utc conflicts file st)).
Proof.
  unfold upload. destruct file as [src|]; [|by left].
  destruct (parseCsv dayjs_utc src) as [[recs| |] w] eqn:Ep; simpl;
    [|by left|by left].
  apply CsvFacts.parseCsv_Resolved in Ep as (Hr & _ & -> & _).
  fold (parsed_records dayjs_utc src).
  destruct (length _ =? 0)%nat; [by left|]. right.
  rewrite (DataFacts.insert_batches_run_chunks conflicts _
             (length (parsed_records dayjs_utc src))) by lia.
  rewrite skipn_0.
  destruct (run_chunks conflicts st _) as [[counts|] st1] eqn:Er;
    simpl; by eexists _, _.
Qed.

(** X4. Whatever the file and whatever the answer, an upload leaves the
    readings that were stored as they were and in place: the new store
    is the old one followed by the rows that were inserted. *)
Theorem upload_appends_only (file : option csv_events) (st : Db.store) :
  exists new : list Db.row,
    Db.energy_data (snd (upload dayjs_utc conflicts file st))
    = Db.energy_data st ++ new.
Proof.
  destruct (upload_store file st) as [->|(src & r & _ & Hr)].
  - exists []. by rewrite app_nil_r.
  - by apply run_chunks_appends in Hr.
Qed.

End Stores.

Lemma chunks_concat {A} (n : nat) (l : list A) :
  (1 <= n)%nat -> concat (chunks n l) = l.
Proof.
  intros Hn. funelim (chunks n l); simp chunks; [done|].
  simpl. rewrite H by done. by rewrite take_drop.
Qed.

End UploadFacts2.

(** ** What an upload stores, and what a failed upload leaves *)

Module UploadFacts3.

Import Js Csv DataRoutes CsvSamples.

Lemma insert_rows_no_conflict_readings vs : forall st n st' n',
  Db.insert_rows Db.no_conflict (st, n) vs = Some (st', n') ->
  Db.readings st' = Db.readings st ++ vs.
Proof.
  induction vs as [|[ts c] vs IH]; intros st n st' n' H; simpl in H.
  - injection H as <- <-. by rewrite app_nil_r.
  - destruct (Db.check_consumption c); [|discriminate].
    unfold Db.no_conflict in H at 1. apply IH in H. rewrite H.
    unfold Db.readings. simpl. rewrite map_app. simpl.
    by rewrite <- app_assoc.
Qed.

Lemma run_chunks_no_conflict_readings cs : forall st counts st',
  run_chunks Db.no_conflict st cs = (Some counts, st') ->
  Db.readings st' = Db.readings st ++ batch_values (concat cs).
Proof.
  induction cs as [|c cs IH]; intros st counts st' H; simpl in H.
  - injection H as <- <-. by rewrite app_nil_r.
  - destruct (Db.insert_values _ _ _) as [[st1 k]|] eqn:E; [|discriminate].
    destruct (run_chunks Db.no_conflict st1 cs) as [[ks|] st2] eqn:E2;
      simpl in H; [|discriminate].
    injection H as <- <-. apply IH in E2.
    apply insert_rows_no_conflict_readings in E.
    rewrite E2, E. simpl. unfold batch_values. rewrite map_app.
    by rewrite <- app_assoc.
Qed.

(** X5. With the schema as declared, a successful upload stores what was
    parsed: the readings of the store are the former ones followed, in
    the order of the file, by the records of the parse step, each with
    its timestamp and its consumption. *)
Theorem upload_stores_parsed_records dayjs_utc (src : csv_events)
    (st st' : Db.store) (message : string) (processed inserted : Z) :
  upload dayjs_utc Db.no_conflict (Some src) st
    = (UploadOk message processed inserted, st') ->
  Db.readings st'
  = Db.readings st ++ batch_values (parsed_records dayjs_utc src).
Proof.
  intros H. apply DataFacts.upload_ok_inv in H as (_ & _ & counts & Er & _).
  apply run_chunks_no_conflict_readings in Er. rewrite Er.
  by rewrite UploadFacts2.chunks_concat by (unfold batchSize; lia).
Qed.

Lemma upload_stores_parsed_records_witness :
  upload dayjs_sample Db.no_conflict (Some three_rows) (Db.empty_store 1)
  = (UploadOk "Data uploaded successfully" 2 2,
     {| Db.energy_data :=
          [ {| Db.id := 1; Db.timestamp := 1735689600000000;
               Db.consumption := Finite 5 |};
            {| Db.id := 2; Db.timestamp := 1735696800000000;
               Db.consumption := Finite 7 |} ];
        Db.next_id := 3 |})
  /\ Db.readings
       {| Db.energy_data :=
            [ {| Db.id := 1; Db.timestamp := 1735689600000000;
                 Db.consumption := Finite 5 |};
              {| Db.id := 2; Db.timestamp := 1735696800000000;
                 Db.consumption := Finite 7 |} ];
          Db.next_id := 3 |}
     = Db.readings (Db.empty_store 1)
       ++ batch_values (parsed_records dayjs_sample three_rows).
Proof.
  split; [reflexivity|].
  exact (upload_stores_parsed_records dayjs_sample three_rows
           (Db.empty_store 1) _ _ 2 2 eq_refl).
Defined.

Section Failure.

Variable conflicts : list Db.row -> Z -> number -> bool.
Variable dayjs_utc : option string -> option Z.



End Failure.



End UploadFacts3.

(** ** More on GET /data and on the rows of the export *)

Module PagingFacts.

Import Js DataRoutes Paging.

(** The rows of a page are stored rows within the bounds. *)
Lemma limit_offset_subseteq n k (rows : list Db.row) r :
  r ∈ Db.limit_offset n k rows -> r ∈ rows.
Proof.
  unfold Db.limit_offset. intros H.
  by apply (subseteq_take _ _), (subseteq_drop _ _) in H.
Qed.

Lemma where_range_elem from to rows r :
  r ∈ Db.where_range from to rows <-> r ∈ rows /\ Db.in_range from to r = true.
Proof.
  unfold Db.where_range. rewrite !list_elem_of_In. apply filter_In.
Qed.

(** X7. A successful answer of GET /data reports as [count] the number of
    rows it carries, which is at most [limit] and at most [total]; every
    row it carries is a stored row within the [from] and [to] bounds. *)
Theorem get_data_rows (st : Db.store) (q : data_query) (body : data_page) :
  get_data st q = DataOk body ->
  count body = Z.of_nat (length (data body))
  /\ count body <= limit body
  /\ count body <= total body
  /\ forall r, r ∈ data body ->
       r ∈ Db.energy_data st
       /\ (forall f, q_from q = Some f -> f <= Db.timestamp r)
       /\ (forall t, q_to q = Some t -> Db.timestamp r <= t).
Proof.
  intros H. pose proof (DataFacts.get_data_limit_in_bounds _ _ _ H) as HL.
  pose proof (DataFacts.get_data_offset_in_bounds _ _ _ H) as Ho.
  rewrite DataFacts.get_data_ok in H by done. injection H as <-.
  cbn [count data limit total].
  set (m := Db.where_range (q_from q) (q_to q) (Db.energy_data st)).
  assert (Hlen : length (Db.order_by_timestamp_desc m) = length m).
  { unfold Db.order_by_timestamp_desc.
    apply Permutation_length, merge_sort_Permutation. }
  split; [done|]. split; [|split].
  - unfold Db.limit_offset. rewrite length_take. lia.
  - unfold Db.limit_offset. rewrite length_take, length_drop. lia.
  - intros r Hr. apply limit_offset_subseteq in Hr.
    unfold Db.order_by_timestamp_desc in Hr.
    rewrite (merge_sort_Permutation Db.ts_desc m) in Hr.
    apply where_range_elem in Hr as [Hin Hrange].
    split; [done|]. by apply DataFacts.in_range_spec.
Qed.

Lemma get_data_rows_witness :
  get_data Db.tied_store (sample_query (Some "2") (Some "1"))
  = DataOk {| data := [ {| Db.id := 3; Db.timestamp := 1735700400000000;
                           Db.consumption := Finite 5 |};
                        {| Db.id := 2; Db.timestamp := 1735696800000000;
                           Db.consumption := Finite 7 |} ];
              count := 2; limit := 2; page := 1; total := 3; totalPages := 2 |}
  /\ 2 <= 3.
Proof.
  split; [reflexivity|].
  exact (proj1 (proj2 (proj2
    (get_data_rows Db.tied_store (sample_query (Some "2") (Some "1"))
       _ eq_refl)))).
Defined.

(** Cutting a list into [n] pages of [L] elements and putting the pages
    one after the other gives the list back, when the pages hold it. *)
Lemma concat_pages {A} (L : nat) : forall (n : nat) (l : list A),
  (length l <= n * L)%nat ->
  concat (map (fun p => take L (drop (p * L) l)) (seq 0 n)) = l.
Proof.
  induction n as [|n IH]; intros l Hl.
  - simpl in *. destruct l; [done | simpl in Hl; lia].
  - cbn [seq map concat]. rewrite <- seq_shift, map_map.
    rewrite drop_0.
    rewrite (map_ext _ (fun p => take L (drop (p * L) (drop L l)))).
    + rewrite IH; [apply take_drop|]. rewrite length_drop. lia.
    + intros p. rewrite drop_drop. do 2 f_equal; lia.
Qed.

(** A descending order of rows with distinct timestamps is strict. *)
Lemma StronglySorted_ts_desc_strict (rows : list Db.row) :
  StronglySorted Db.ts_desc rows ->
  NoDup (map Db.timestamp rows) ->
  StronglySorted (fun a b => Db.timestamp b < Db.timestamp a) rows.
Proof.
  induction 1 as [|r rows Hs IH Hall]; intros Hnd; [constructor|].
  simpl in Hnd. apply NoDup_cons in Hnd as [Hr Hnd].
  constructor; [by apply IH|].
  apply Forall_forall. intros r' Hr'.
  rewrite Forall_forall in Hall. specialize (Hall r' Hr').
  unfold Db.ts_desc in Hall.
  assert (Db.timestamp r' <> Db.timestamp r).
  { intros Heq. apply Hr. rewrite <- Heq. apply list_elem_of_fmap.
    by exists r'. }
  lia.
Qed.

(** X8. Paging through GET /data loses and repeats nothing when the
    timestamps of the rows within the bounds are distinct (the order of
    each query is then fixed) and the table holds no more rows than a
    [bigint] counts: for a limit from 1 to 10000 and fixed bounds, the
    rows of pages 1 to [totalPages], one page after the other, are the
    stored rows within the bounds, each once, from the most recent to
    the oldest. *)
Theorem get_data_pages_cover (st : Db.store) (request : nat -> data_query)
    (from to : option Z) (L : Z) :
  1 <= L <= 10000 ->
  NoDup (map Db.timestamp (Db.where_range from to (Db.energy_data st))) ->
  Z.of_nat (length (Db.energy_data st)) <= int8_max ->
  (forall p : nat,
     (p < Z.to_nat (Math_ceil_div
                      (Z.of_nat (length (Db.where_range from to
                                           (Db.energy_data st))))
                      L))%nat ->
     q_from (request p) = from /\ q_to (request p) = to
     /\ effective_limit (request p) = L
     /\ effective_page (request p) = Z.of_nat (S p)) ->
  pages_rows st request
    (Z.to_nat (Math_ceil_div
                 (Z.of_nat (length (Db.where_range from to (Db.energy_data st))))
                 L))
  ≡ₚ Db.where_range from to (Db.energy_data st)
  /\ StronglySorted (fun a b => Db.timestamp b < Db.timestamp a)
       (pages_rows st request
          (Z.to_nat (Math_ceil_div
                       (Z.of_nat (length (Db.where_range from to
                                            (Db.energy_data st))))
                       L))).
Proof.
  intros HL Hnd Hcount Hreq.
  set (m := Db.where_range from to (Db.energy_data st)) in *.
  set (sorted := Db.order_by_timestamp_desc m).
  assert (Hperm : sorted ≡ₚ m) by apply (merge_sort_Permutation Db.ts_desc).
  assert (Hm : (length m <= length (Db.energy_data st))%nat).
  { unfold m, Db.where_range. apply filter_length_le. }
  pose proof (DataFacts.Math_ceil_div_spec (Z.of_nat (length m)) L
                ltac:(lia)) as Hc.
  assert (Hpages : pages_rows st request
                     (Z.to_nat (Math_ceil_div (Z.of_nat (length m)) L))
                   = sorted).
  { unfold pages_rows.
    rewrite (map_ext_in _ (fun p => take (Z.to_nat L)
                                      (drop (p * Z.to_nat L) sorted))).
    - apply concat_pages. rewrite (Permutation_length Hperm). nia.
    - intros p Hin. apply in_seq in Hin.
      destruct (Hreq p ltac:(lia)) as (Hf & Ht & Hl & Hp).
      rewrite DataFacts.get_data_ok by (rewrite ?Hl, ?Hp; nia).
      cbn [response_rows data]. rewrite Hf, Ht, Hl, Hp.
      unfold Db.limit_offset. fold m. fold sorted. do 2 f_equal. nia. }
  rewrite Hpages. split; [done|].
  apply StronglySorted_ts_desc_strict.
  - apply StronglySorted_merge_sort.
    + intros a b c. unfold Db.ts_desc. lia.
    + intros a b. unfold Db.ts_desc. lia.
  - by rewrite Hperm.
Qed.

Lemma get_data_pages_cover_witness :
  1 <= 2 <= 10000
  /\ NoDup (map Db.timestamp
              (Db.where_range None None (Db.energy_data Db.tied_store)))
  /\ pages_rows Db.tied_store two_per_page 2
     ≡ₚ Db.where_range None None (Db.energy_data Db.tied_store).
Proof.
  assert (HL : 1 <= 2 <= 10000) by lia.
  assert (Hnd : NoDup (map Db.timestamp
                         (Db.where_range None None
                            (Db.energy_data Db.tied_store))))
    by (apply (bool_decide_unpack _); by vm_compute).
  assert (Hc : Z.of_nat (length (Db.energy_data Db.tied_store)) <= int8_max)
    by (vm_compute; discriminate).
  split; [exact HL|]. split; [exact Hnd|].
  refine (proj1 (get_data_pages_cover Db.tied_store two_per_page None None 2
                   HL Hnd Hc _)).
  intros p Hp. destruct p as [|[|p]].
  - repeat split; reflexivity.
  - repeat split; reflexivity.
  - exfalso. vm_compute in Hp. lia.
Defined.

End PagingFacts.

(** ** The rows of GET /export/data.csv, and the defaults of GET /data *)

Module ExportRowsFacts.

Import Js DataRoutes ExportRoutes Paging.

Lemma parseInt_10_Some_string v n :
  parseInt v 10 = Some n -> exists s, v = Some s /\ s <> EmptyString.
Proof.
  destruct v as [s|]; [|intros H; vm_compute in H; discriminate].
  intros H. exists s. split; [done|]. intros ->.
  vm_compute in H. discriminate.
Qed.

(** X9. A [limit] of the export that is absent, is not a number, or is a
    number outside 1..100000 is ignored, not refused: the export then
    carries every stored row within the bounds, each once, in ascending
    order of timestamp. *)
Theorem export_ignores_bad_limit (st : Db.store) (q : export_query) :
  e_limit q = None
  \/ parseInt (e_limit q) 10 = None
  \/ (exists n, parseInt (e_limit q) 10 = Some n /\ (n <= 0 \/ 100000 < n)) ->
  export_data_rows st q
  ≡ₚ Db.where_range (e_from q) (e_to q) (Db.energy_data st)
  /\ StronglySorted (fun a b => Db.timestamp a <= Db.timestamp b)
       (export_data_rows st q).
Proof.
  intros H. split; [|apply DataFacts.export_rows_ascending].
  unfold export_data_rows.
  assert (Hl : export_limit (e_limit q) = None).
  { unfold export_limit. destruct (e_limit q) as [s|]; [|done].
    destruct (String.eqb s EmptyString); [done|].
    destruct H as [H|[H|(n & H & Hn)]]; [discriminate| |]; rewrite H; [done|].
    destruct (0 <? n) eqn:E1, (n <=? 100000) eqn:E2; simpl; try done. lia. }
  rewrite Hl. apply (merge_sort_Permutation Db.ts_asc).
Qed.

(** X10. With a [limit] that [parseInt] reads as a number [n] in
    1..100000 the export carries the [n] earliest rows within the bounds
    (all of them when there are fewer): the rows left out are not earlier
    than any row exported. *)
Theorem export_limit_earliest (st : Db.store) (q : export_query) (n : Z) :
  parseInt (e_limit q) 10 = Some n ->
  1 <= n <= 100000 ->
  exists rest : list Db.row,
    export_data_rows st q ++ rest
    ≡ₚ Db.where_range (e_from q) (e_to q) (Db.energy_data st)
    /\ length (export_data_rows st q)
       = Nat.min (Z.to_nat n)
           (length (Db.where_range (e_from q) (e_to q) (Db.energy_data st)))
    /\ forall r r', r ∈ export_data_rows st q -> r' ∈ rest ->
         Db.timestamp r <= Db.timestamp r'.
Proof.
  intros Hn Hb. unfold export_data_rows.
  assert (Hl : export_limit (e_limit q) = Some n).
  { destruct (parseInt_10_Some_string _ _ Hn) as (s & Hs & Hne).
    unfold export_limit. rewrite Hs in Hn |- *.
    destruct (String.eqb s EmptyString) eqn:E;
      [by apply String.eqb_eq in E|].
    rewrite Hn. destruct (0 <? n) eqn:E1, (n <=? 100000) eqn:E2; simpl;
      try done; lia. }
  rewrite Hl.
  set (m := Db.where_range (e_from q) (e_to q) (Db.energy_data st)).
  set (sorted := Db.order_by_timestamp_asc m).
  assert (Hperm : sorted ≡ₚ m) by apply (merge_sort_Permutation Db.ts_asc).
  assert (Hs : StronglySorted Db.ts_asc sorted).
  { apply StronglySorted_merge_sort.
    - intros a b c. unfold Db.ts_asc. lia.
    - intros a b. unfold Db.ts_asc. lia. }
  exists (drop (Z.to_nat n) sorted). split; [by rewrite take_drop|]. split.
  - rewrite length_take, (Permutation_length Hperm). done.
  - rewrite <- (take_drop (Z.to_nat n) sorted) in Hs.
    apply StronglySorted_app in Hs as (Hle & _ & _).
    intros r r' Hr Hr'. exact (Hle r r' Hr Hr').
Qed.

Lemma export_ignores_bad_limit_witness :
  (e_limit (limited_export "0") = None
   \/ parseInt (e_limit (limited_export "0")) 10 = None
   \/ (exists n, parseInt (e_limit (limited_export "0")) 10 = Some n
                 /\ (n <= 0 \/ 100000 < n)))
  /\ export_data_rows Db.tied_store (limited_export "0")
     ≡ₚ Db.where_range None None (Db.energy_data Db.tied_store).
Proof.
  assert (H : e_limit (limited_export "0") = None
              \/ parseInt (e_limit (limited_export "0")) 10 = None
              \/ (exists n, parseInt (e_limit (limited_export "0")) 10 = Some n
                            /\ (n <= 0 \/ 100000 < n))).
  { right. right. exists 0. split; [reflexivity | lia]. }
  split; [exact H|].
  exact (proj1 (export_ignores_bad_limit Db.tied_store (limited_export "0") H)).
Defined.

Lemma export_limit_earliest_witness :
  parseInt (e_limit (limited_export "2")) 10 = Some 2
  /\ 1 <= 2 <= 100000
  /\ exists rest : list Db.row,
       export_data_rows Db.tied_store (limited_export "2") ++ rest
       ≡ₚ Db.where_range None None (Db.energy_data Db.tied_store)
       /\ length (export_data_rows Db.tied_store (limited_export "2"))
          = Nat.min (Z.to_nat 2)
              (length (Db.where_range None None (Db.energy_data Db.tied_store)))
       /\ forall r r',
            r ∈ export_data_rows Db.tied_store (limited_export "2") ->
            r' ∈ rest -> Db.timestamp r <= Db.timestamp r'.
Proof.
  assert (H1 : parseInt (e_limit (limited_export "2")) 10 = Some 2)
    by reflexivity.
  assert (H2 : 1 <= 2 <= 100000) by lia.
  split; [exact H1 | split; [exact H2|]].
  exact (export_limit_earliest Db.tied_store (limited_export "2") 2 H1 H2).
Defined.



End ExportRowsFacts.

(** ** More on the metrics *)

Module MetricsMore.

Import Js MetricsRoutes.

(** X12. With fewer than two readings the standard deviation is reported
    as 0, whatever the reading is: the aggregate is [NULL] there. *)
Theorem summary_stddev_few_rows (sqrt : Q -> Q) (st : Db.store) :
  (length (Db.energy_data st) < 2)%nat ->
  consumption_stddev (get_metrics_summary sqrt st) = Finite 0.
Proof.
  intros H. unfold get_metrics_summary, summary_query.
  destruct (Db.energy_data st) as [|r [|r' rows]]; simpl in H;
    [reflexivity | reflexivity | lia].
Qed.

Lemma summary_stddev_few_rows_witness :
  (length (Db.energy_data Db.eighth_store) < 2)%nat
  /\ consumption_stddev (get_metrics_summary (fun q => q) Db.eighth_store)
     = Finite 0.
Proof.
  assert (H : (length (Db.energy_data Db.eighth_store) < 2)%nat)
    by (simpl; lia).
  split; [exact H|].
  exact (summary_stddev_few_rows (fun q => q) Db.eighth_store H).
Defined.

(** *** Bounds *)

Lemma fold_min_Z ts : forall t,
  let m := fold_left Z.min ts t in
  m ∈ t :: ts /\ forall x, x ∈ t :: ts -> m <= x.
Proof.
  induction ts as [|z ts IH]; intros t; simpl.
  - split; [by left|]. intros x Hx. apply list_elem_of_singleton in Hx. lia.
  - destruct (IH (Z.min t z)) as [Hin Hle]. split.
    + apply elem_of_cons in Hin as [Heq|Hin]; [|by do 2 right].
      rewrite Heq. destruct (Z.min_spec t z) as [[_ ->]|[_ ->]];
        [by left | right; by left].
    + intros x Hx. apply elem_of_cons in Hx as [->|Hx].
      * specialize (Hle (Z.min t z) ltac:(by left)). lia.
      * apply elem_of_cons in Hx as [->|Hx].
        -- specialize (Hle (Z.min t z) ltac:(by left)). lia.
        -- apply Hle. by right.
Qed.

Lemma fold_max_Z ts : forall t,
  let m := fold_left Z.max ts t in
  m ∈ t :: ts /\ forall x, x ∈ t :: ts -> x <= m.
Proof.
  induction ts as [|z ts IH]; intros t; simpl.
  - split; [by left|]. intros x Hx. apply list_elem_of_singleton in Hx. lia.
  - destruct (IH (Z.max t z)) as [Hin Hle]. split.
    + apply elem_of_cons in Hin as [Heq|Hin]; [|by do 2 right].
      rewrite Heq. destruct (Z.max_spec t z) as [[_ ->]|[_ ->]];
        [right; by left | by left].
    + intros x Hx. apply elem_of_cons in Hx as [->|Hx].
      * specialize (Hle (Z.max t z) ltac:(by left)). lia.
      * apply elem_of_cons in Hx as [->|Hx].
        -- specialize (Hle (Z.max t z) ltac:(by left)). lia.
        -- apply Hle. by right.
Qed.

Lemma fold_min_spec xs : forall x,
  let m := fold_left (fun m y => if Db.float8_lt y m then y else m) xs x in
  m ∈ x :: xs /\ forall y, y ∈ x :: xs -> Db.float8_le m y = true.
Proof.
  induction xs as [|z xs IH]; intros x; simpl.
  - split; [by left|]. intros y Hy. apply list_elem_of_singleton in Hy as ->.
    apply MetricsFacts.float8_le_refl.
  - destruct (Db.float8_lt z x) eqn:E.
    + destruct (IH z) as [Hin Hmin]. split; [by right|].
      intros y Hy. apply elem_of_cons in Hy as [->|Hy]; [|by apply Hmin].
      apply MetricsFacts.float8_le_trans with z; [apply Hmin; by left|].
      rewrite MetricsFacts.float8_lt_not_le in E. apply negb_true_iff in E.
      destruct (MetricsFacts.float8_le_total z x); congruence.
    + destruct (IH x) as [Hin Hmin]. split.
      * apply elem_of_cons in Hin as [->|Hin]; [by left|by do 2 right].
      * intros y Hy. apply elem_of_cons in Hy as [->|Hy]; [apply Hmin; by left|].
        apply elem_of_cons in Hy as [->|Hy]; [|apply Hmin; by right].
        apply MetricsFacts.float8_le_trans with x; [apply Hmin; by left|].
        rewrite MetricsFacts.float8_lt_not_le in E.
        by apply negb_false_iff in E.
Qed.

(** [x || 0] keeps a number that is not [NaN], up to the writing of zero. *)
Lemma or_zero_float8_eq x :
  isNaN x = false -> Db.float8_eq (or_zero x) x = true.
Proof.
  destruct x as [|[]|q]; [discriminate|done|done|]. intros _. simpl.
  destruct (Qis_zero q) eqn:E.
  - apply Qeq_bool_iff in E. unfold Db.float8_eq, Db.float8_compare.
    destruct (Qcompare_spec 0 q) as [H|H|H]; [done|lra|lra].
  - unfold Db.float8_eq, Db.float8_compare.
    destruct (Qcompare_spec q q) as [H|H|H]; [done|lra|lra].
Qed.

Lemma length_remove_dups_le (xs : list Z) :
  (length (remove_dups xs) <= length xs)%nat.
Proof.
  induction xs as [|x xs IH]; [done|]. simpl.
  destruct (decide_rel elem_of x xs); simpl; lia.
Qed.

Lemma length_remove_dups_pos (xs : list Z) :
  xs <> [] -> (1 <= length (remove_dups xs))%nat.
Proof.
  destruct xs as [|x xs]; [done|]. intros _.
  assert (H : x ∈ remove_dups (x :: xs))
    by (apply elem_of_remove_dups; by left).
  destruct (remove_dups (x :: xs)); [by apply elem_of_nil in H | simpl; lia].
Qed.

(** X13. On a store that is not empty and holds no [NaN], the summary is
    consistent: the earliest and the latest timestamp are timestamps of
    stored rows that bound all of them, the minimum is at most the
    maximum, and the days of data are at least 1 and at most the number
    of readings. *)
Theorem summary_bounds (sqrt : Q -> Q) (st : Db.store) :
  Db.energy_data st <> [] ->
  Forall (fun r => isNaN (Db.consumption r) = false) (Db.energy_data st) ->
  exists (e l d : Z),
    earliest_timestamp (get_metrics_summary sqrt st) = Some e
    /\ latest_timestamp (get_metrics_summary sqrt st) = Some l
    /\ e ∈ map Db.timestamp (Db.energy_data st)
    /\ l ∈ map Db.timestamp (Db.energy_data st)
    /\ (forall r, r ∈ Db.energy_data st -> e <= Db.timestamp r <= l)
    /\ Db.float8_le (min_consumption (get_metrics_summary sqrt st))
         (max_consumption (get_metrics_summary sqrt st)) = true
    /\ days_of_data (get_metrics_summary sqrt st) = Finite (inject_Z d)
    /\ 1 <= d <= Z.of_nat (length (Db.energy_data st)).
Proof.
  intros Hne Hnum. unfold get_metrics_summary, summary_query.
  cbn [head earliest_timestamp latest_timestamp min_consumption
       max_consumption days_of_data r_earliest_timestamp r_latest_timestamp
       r_min_consumption r_max_consumption r_days_of_data].
  destruct (Db.energy_data st) as [|r0 rows] eqn:Erows; [done|].
  cbn [map Db.min_timestamp Db.max_timestamp Db.sql_min Db.sql_max
       Db.coalesce0 default].
  pose proof (fold_min_Z (map Db.timestamp rows) (Db.timestamp r0)) as [He1 He2].
  pose proof (fold_max_Z (map Db.timestamp rows) (Db.timestamp r0)) as [Hl1 Hl2].
  pose proof (fold_min_spec (map Db.consumption rows) (Db.consumption r0))
    as [Hm1 Hm2].
  pose proof (MetricsFacts.fold_max_spec (map Db.consumption rows)
                (Db.consumption r0)) as [HM1 HM2].
  set (mn := fold_left _ (map Db.consumption rows) (Db.consumption r0)) in *.
  set (mx := fold_left (fun m y => if Db.float8_lt m y then y else m)
               (map Db.consumption rows) (Db.consumption r0)) in *.
  set (days := remove_dups (Db.DATE (Db.timestamp r0)
                            :: map Db.DATE (map Db.timestamp rows))).
  exists (fold_left Z.min (map Db.timestamp rows) (Db.timestamp r0)),
         (fold_left Z.max (map Db.timestamp rows) (Db.timestamp r0)),
         (Z.of_nat (length days)).
  assert (Hd1 : (1 <= length days)%nat)
    by (apply length_remove_dups_pos; discriminate).
  assert (Hd2 : (length days <= S (length rows))%nat).
  { etransitivity; [apply length_remove_dups_le|].
    simpl. by rewrite !length_map. }
  assert (HnanOf : forall x, x ∈ Db.consumption r0 :: map Db.consumption rows ->
                     isNaN x = false).
  { intros x Hx. change (x ∈ map Db.consumption (r0 :: rows)) in Hx.
    apply list_elem_of_fmap in Hx as (r & -> & Hr).
    rewrite Forall_forall in Hnum. by apply Hnum. }
  split; [done|]. split; [done|]. split; [done|]. split; [done|].
  split.
  { intros r Hr.
    assert (Db.timestamp r ∈ Db.timestamp r0 :: map Db.timestamp rows).
    { change (Db.timestamp r ∈ map Db.timestamp (r0 :: rows)).
      apply list_elem_of_fmap. by exists r. }
    split; [by apply He2 | by apply Hl2]. }
  split.
  { pose proof (or_zero_float8_eq mn (HnanOf _ Hm1)) as H1.
    pose proof (or_zero_float8_eq mx (HnanOf _ HM1)) as H2.
    apply MetricsFacts.float8_eq_le in H1 as [H1 _].
    apply MetricsFacts.float8_eq_le in H2 as [_ H2].
    eapply MetricsFacts.float8_le_trans; [exact H1|].
    eapply MetricsFacts.float8_le_trans; [|exact H2].
    by apply Hm2. }
  split.
  { unfold Db.count_distinct, Number_of_count. fold days. simpl.
    destruct (Qis_zero (inject_Z (Z.of_nat (length days)))) eqn:E; [|done].
    apply Qeq_bool_iff in E. unfold Qeq in E. simpl in E. lia. }
  simpl length. lia.
Qed.

Lemma summary_bounds_witness :
  exists (e l d : Z),
    earliest_timestamp (get_metrics_summary (fun q => q) Db.tied_store)
    = Some e
    /\ latest_timestamp (get_metrics_summary (fun q => q) Db.tied_store)
       = Some l
    /\ e ∈ map Db.timestamp (Db.energy_data Db.tied_store)
    /\ l ∈ map Db.timestamp (Db.energy_data Db.tied_store)
    /\ (forall r, r ∈ Db.energy_data Db.tied_store ->
                  e <= Db.timestamp r <= l)
    /\ Db.float8_le
         (min_consumption (get_metrics_summary (fun q => q) Db.tied_store))
         (max_consumption (get_metrics_summary (fun q => q) Db.tied_store))
       = true
    /\ days_of_data (get_metrics_summary (fun q => q) Db.tied_store)
       = Finite (inject_Z d)
    /\ 1 <= d <= Z.of_nat (length (Db.energy_data Db.tied_store)).
Proof.
  apply (summary_bounds (fun q => q) Db.tied_store).
  - discriminate.
  - repeat constructor.
Defined.

End MetricsMore.

(** ** The routes of one record *)

Module RecordFacts.

Import Js RecordRoutes.

Lemma where_id_not_id id rows : where_id id (where_not_id id rows) = [].
Proof.
  unfold where_id, where_not_id. induction rows as [|r rows IH]; [done|].
  simpl. destruct (Db.id r =? id) eqn:E; simpl; [done|]. by rewrite E.
Qed.

Lemma where_id_other id id' rows :
  id' <> id -> where_id id' (where_not_id id rows) = where_id id' rows.
Proof.
  intros Hne. unfold where_id, where_not_id.
  induction rows as [|r rows IH]; [done|]. simpl.
  destruct (Db.id r =? id) eqn:E; simpl.
  - apply Z.eqb_eq in E. destruct (Db.id r =? id') eqn:E'; [|done].
    apply Z.eqb_eq in E'. congruence.
  - by rewrite IH.
Qed.

Lemma where_not_id_elem id rows r :
  r ∈ where_not_id id rows <-> r ∈ rows /\ Db.id r <> id.
Proof.
  unfold where_not_id. rewrite !list_elem_of_In, filter_In.
  rewrite negb_true_iff, Z.eqb_neq. done.
Qed.

(** X14. A record that was deleted is gone, and no other record is
    touched: after a successful DELETE, GET on the same parameter answers
    404, the rows of the table are the former rows with another id, and
    GET on a parameter that reads as another id answers as before. *)
Theorem delete_then_get (st st' : Db.store) (id_param message : string)
    (id : Z) :
  delete_record st id_param = (DeleteOk message id, st') ->
  parseInt (Some id_param) 0 = Some id
  /\ get_record st' id_param = RecordError 404 "Data not found"
  /\ (forall r, r ∈ Db.energy_data st' <->
                r ∈ Db.energy_data st /\ Db.id r <> id)
  /\ forall other : string,
       parseInt (Some other) 0 <> Some id ->
       get_record st' other = get_record st other.
Proof.
  unfold delete_record. intros H.
  destruct (parseInt (Some id_param) 0) as [n|] eqn:Ep; [|discriminate].
  destruct (int4 n) eqn:Ei; [|discriminate].
  destruct (where_id n (Db.energy_data st)) as [|r0 rs] eqn:Ew;
    [discriminate|].
  injection H as _ <- <-. split; [done|]. split.
  { unfold get_record. rewrite Ep, Ei. simpl. by rewrite where_id_not_id. }
  split; [intros r; apply where_not_id_elem|].
  intros other Ho. unfold get_record.
  destruct (parseInt (Some other) 0) as [m|]; [|done].
  destruct (int4 m); [|done]. simpl.
  rewrite where_id_other; [done|congruence].
Qed.

Lemma delete_then_get_witness :
  delete_record Db.tied_store "2" = (DeleteOk "Data deleted successfully" 2,
    {| Db.energy_data := where_not_id 2 (Db.energy_data Db.tied_store);
       Db.next_id := 4 |})
  /\ get_record
       {| Db.energy_data := where_not_id 2 (Db.energy_data Db.tied_store);
          Db.next_id := 4 |} "2"
     = RecordError 404 "Data not found".
Proof.
  split; [reflexivity|].
  exact (proj1 (proj2 (delete_then_get Db.tied_store _ "2" _ 2 eq_refl))).
Defined.

(** X15. After a successful DELETE no page of GET /data shows the
    record. *)
Theorem delete_then_get_data (st st' : Db.store) (id_param message : string)
    (id : Z) (q : DataRoutes.data_query) (body : DataRoutes.data_page) :
  delete_record st id_param = (DeleteOk message id, st') ->
  DataRoutes.get_data st' q = DataRoutes.DataOk body ->
  forall r, r ∈ DataRoutes.data body ->
    r ∈ Db.energy_data st /\ Db.id r <> id.
Proof.
  unfold delete_record. intros H Hq r Hr.
  destruct (parseInt (Some id_param) 0) as [n|] eqn:Ep; [|discriminate].
  destruct (int4 n) eqn:Ei; [|discriminate].
  destruct (where_id n (Db.energy_data st)) as [|r0 rs] eqn:Ew;
    [discriminate|].
  injection H as _ <- <-.
  unfold DataRoutes.get_data in Hq.
  destruct (_ || _) in Hq; [discriminate|].
  destruct (DataRoutes.int8_max <? _) in Hq; [discriminate|].
  injection Hq as <-. simpl in Hr.
  apply PagingFacts.limit_offset_subseteq in Hr.
  unfold Db.order_by_timestamp_desc in Hr.
  rewrite (merge_sort_Permutation Db.ts_desc) in Hr.
  apply PagingFacts.where_range_elem in Hr as [Hr _].
  simpl in Hr. by apply where_not_id_elem in Hr.
Qed.

Lemma delete_then_get_data_witness :
  delete_record Db.tied_store "2"
  = (DeleteOk "Data deleted successfully" 2,
     {| Db.energy_data := where_not_id 2 (Db.energy_data Db.tied_store);
        Db.next_id := 4 |})
  /\ Forall (fun r => r ∈ Db.energy_data Db.tied_store /\ Db.id r <> 2)
       (Paging.response_rows
          (DataRoutes.get_data
             {| Db.energy_data := where_not_id 2 (Db.energy_data Db.tied_store);
                Db.next_id := 4 |}
             (DataRoutes.sample_query None None))).
Proof.
  split; [reflexivity|]. apply Forall_forall.
  exact (delete_then_get_data Db.tied_store _ "2" _ 2
           (DataRoutes.sample_query None None) _ eq_refl eq_refl).
Defined.

Section UpdateFacts.

Variable check : number -> bool.

(** What the statement makes of the rows. *)
Lemma mapM_update_row body id rows rows' :
  mapM (update_row check body id) rows = Some rows' ->
  Forall2 (fun r r' => update_row check body id r = Some r') rows rows'.
Proof. by rewrite mapM_Some. Qed.

Lemma update_row_id body id r r' :
  update_row check body id r = Some r' -> Db.id r' = Db.id r.
Proof.
  unfold update_row. destruct (Db.id r =? id); [|by intros [= <-]].
  destruct (new_value (b_timestamp body) _); [|discriminate].
  destruct (new_value (b_consumption body) _) as [c|]; [|discriminate].
  destruct (check c); [|discriminate]. by intros [= <-].
Qed.

Lemma update_row_other body id r r' :
  update_row check body id r = Some r' -> Db.id r <> id -> r' = r.
Proof.
  unfold update_row. intros H Hne. apply Z.eqb_neq in Hne.
  rewrite Hne in H. by injection H.
Qed.

Lemma update_rows_where_other body id id' rows rows' :
  Forall2 (fun r r' => update_row check body id r = Some r') rows rows' ->
  id' <> id -> where_id id' rows' = where_id id' rows.
Proof.
  intros H Hne. unfold where_id.
  induction H as [|r r' rows rows' Hr _ IH]; [done|]. simpl.
  rewrite (update_row_id _ _ _ _ Hr).
  destruct (Db.id r =? id') eqn:E; [|done].
  apply Z.eqb_eq in E. rewrite IH.
  by rewrite (update_row_other _ _ _ _ Hr) by congruence.
Qed.

Lemma update_rows_where_id body id rows rows' :
  Forall2 (fun r r' => update_row check body id r = Some r') rows rows' ->
  Forall2 (fun r r' => update_row check body id r = Some r')
    (where_id id rows) (where_id id rows').
Proof.
  intros H. unfold where_id.
  induction H as [|r r' rows rows' Hr _ IH]; [constructor|]. simpl.
  rewrite (update_row_id _ _ _ _ Hr).
  destruct (Db.id r =? id); [by constructor|done].
Qed.

Lemma update_rows_none_matches body id rows :
  where_id id rows = [] -> mapM (update_row check body id) rows = Some rows.
Proof.
  intros H. apply mapM_Some. unfold where_id in H.
  induction rows as [|r rows IH]; [constructor|]. simpl in H.
  destruct (Db.id r =? id) eqn:E; [discriminate|].
  constructor; [|by apply IH]. unfold update_row. by rewrite E.
Qed.

Lemma put_record_ok_inv st st' id_param body message r :
  put_record check st id_param body = (PutOk message r, st') ->
  exists id rows' rs,
    parseInt (Some id_param) 0 = Some id
    /\ int4 id = true
    /\ Forall2 (fun r r' => update_row check body id r = Some r')
         (Db.energy_data st) rows'
    /\ where_id id rows' = r :: rs
    /\ st' = {| Db.energy_data := rows'; Db.next_id := Db.next_id st |}.
Proof.
  unfold put_record. intros H.
  destruct (parseInt (Some id_param) 0) as [id|]; [|discriminate].
  assert (Hu : match update_energy_data check body id st with
               | Some ([], st') => (PutError 404 "Data not found", st')
               | Some (r :: _, st') =>
                   (PutOk "Data updated successfully" r, st')
               | None => (PutError 500 "Internal server error", st)
               end = (PutOk message r, st')).
  { destruct (b_timestamp body), (b_consumption body); try done. }
  clear H. unfold update_energy_data in Hu.
  destruct (int4 id) eqn:Ei; [|discriminate]. simpl in Hu.
  destruct (negb _ && negb _); [|discriminate].
  destruct (mapM _ _) as [rows'|] eqn:Em; [|discriminate].
  destruct (where_id id rows') as [|r1 rs] eqn:Ew; [discriminate|].
  injection Hu as _ <- <-.
  exists id, rows', rs. repeat split; try done. by apply mapM_update_row.
Qed.

(** X16. A record that was updated is read back as written: after a
    successful PUT, GET on the same parameter returns the row of the
    answer; it is the row GET returned before, with each field of the
    body in place of the former value and the other field kept; and GET
    on a parameter that reads as another id answers as before. *)
Theorem put_then_get (st st' : Db.store) (id_param message : string)
    (body : put_body) (r : Db.row) :
  put_record check st id_param body = (PutOk message r, st') ->
  get_record st' id_param = RecordOk r
  /\ (exists r0,
        get_record st id_param = RecordOk r0
        /\ Db.id r = Db.id r0
        /\ new_value (b_timestamp body) (Db.timestamp r0)
           = Some (Db.timestamp r)
        /\ new_value (b_consumption body) (Db.consumption r0)
           = Some (Db.consumption r))
  /\ forall (other : string),
       parseInt (Some other) 0 <> parseInt (Some id_param) 0 ->
       get_record st' other = get_record st other.
Proof.
  intros H.
  apply put_record_ok_inv in H as (id & rows' & rs & Ep & Ei & HF & Ew & ->).
  split; [unfold get_record; simpl; by rewrite Ep, Ei, Ew|]. split.
  - pose proof (update_rows_where_id _ _ _ _ HF) as HF'. rewrite Ew in HF'.
    inversion HF' as [|r0 r' rs0 rs' Hr0 _ E0 E1]; subst.
    exists r0. unfold get_record. rewrite Ep, Ei, <- E0.
    split; [done|]. unfold update_row in Hr0.
    assert (Hid : (Db.id r0 =? id) = true).
    { assert (Hin : r0 ∈ where_id id (Db.energy_data st))
        by (rewrite <- E0; by left).
      unfold where_id in Hin. apply list_elem_of_In, filter_In in Hin.
      by destruct Hin. }
    rewrite Hid in Hr0.
    destruct (new_value (b_timestamp body) _) as [t|]; [|discriminate].
    destruct (new_value (b_consumption body) _) as [c|]; [|discriminate].
    destruct (check c); [|discriminate]. by injection Hr0 as <-.
  - intros other Ho. unfold get_record. simpl.
    destruct (parseInt (Some other) 0) as [m|]; [|done].
    destruct (int4 m); [|done].
    rewrite (update_rows_where_other _ _ _ _ _ HF); [done|congruence].
Qed.

(** X17. A PUT that is not answered with the success message changes
    nothing, and a successful one changes neither the number of the rows
    nor their ids; the row it writes passes the check of the table. *)
Theorem put_keeps_table (st : Db.store) (id_param : string)
    (body : put_body) :
  match put_record check st id_param body with
  | (PutError _ _, st') => st' = st
  | (PutOk _ r, st') =>
      map Db.id (Db.energy_data st') = map Db.id (Db.energy_data st)
      /\ Db.next_id st' = Db.next_id st
      /\ check (Db.consumption r) = true
  end.
Proof.
  destruct (put_record check st id_param body) as [[m r|status error] st']
    eqn:H.
  - apply put_record_ok_inv in H as (id & rows' & rs & Ep & Ei & HF & Ew & ->).
    simpl. split; [|split; [done|]].
    + clear Ew. induction HF as [|r0 r' rows rows' Hr _ IH]; [done|].
      simpl. by rewrite IH, (update_row_id _ _ _ _ Hr).
    + pose proof (update_rows_where_id _ _ _ _ HF) as HF'. rewrite Ew in HF'.
      inversion HF' as [|r0 r' rs0 rs' Hr0 _ E0 E1]; subst.
      unfold update_row in Hr0.
      destruct (Db.id r0 =? id) eqn:Eid.
      * destruct (new_value (b_timestamp body) _); [|discriminate].
        destruct (new_value (b_consumption body) _) as [c|]; [|discriminate].
        destruct (check c) eqn:Ec; [|discriminate]. by injection Hr0 as <-.
      * exfalso. injection Hr0 as ->.
        assert (Hin : r ∈ where_id id (Db.energy_data st))
          by (rewrite <- E0; by left).
        unfold where_id in Hin. apply list_elem_of_In, filter_In in Hin.
        destruct Hin as [_ Hin]. congruence.
  - unfold put_record in H.
    destruct (parseInt (Some id_param) 0) as [id|]; [|by injection H].
    assert (Hu : match update_energy_data check body id st with
                 | Some ([], st') => (PutError 404 "Data not found", st')
                 | Some (r :: _, st') =>
                     (PutOk "Data updated successfully" r, st')
                 | None => (PutError 500 "Internal server error", st)
                 end = (PutError status error, st')
                 \/ st' = st).
    { destruct (b_timestamp body), (b_consumption body);
        try (by left); right; by injection H. }
    clear H. destruct Hu as [Hu|]; [|done].
    unfold update_energy_data in Hu.
    destruct (int4 id && _ && _); [|by injection Hu].
    destruct (mapM _ _) as [rows'|] eqn:Em; [|by injection Hu].
    destruct (where_id id rows') as [|r1 rs] eqn:Ew; [|discriminate].
    injection Hu as _ _ <-.
    assert (Hw : where_id id (Db.energy_data st) = []).
    { apply mapM_update_row, update_rows_where_id in Em. rewrite Ew in Em.
      by inversion Em. }
    rewrite (update_rows_none_matches _ _ _ Hw) in Em. injection Em as <-.
    by destruct st.
Qed.

(** X18. A PUT for an id without a row is answered 404 even when the
    body assigns [null] or a value that fails the check: the constraints
    are tested on the rows the statement writes.  Only a value that the
    database cannot read, or an id outside of the range of the key, is
    answered 500. *)
Theorem put_missing_record (st : Db.store) (id_param : string) (id : Z)
    (body : put_body) :
  parseInt (Some id_param) 0 = Some id ->
  where_id id (Db.energy_data st) = [] ->
  (b_timestamp body <> None \/ b_consumption body <> None) ->
  put_record check st id_param body
  = (if int4 id && negb (is_unreadable (b_timestamp body))
        && negb (is_unreadable (b_consumption body))
     then PutError 404 "Data not found"
     else PutError 500 "Internal server error", st).
Proof.
  intros Ep Hw Hb. unfold put_record. rewrite Ep.
  assert (Hu : update_energy_data check body id st
               = if int4 id && negb (is_unreadable (b_timestamp body))
                    && negb (is_unreadable (b_consumption body))
                 then Some ([], st) else None).
  { unfold update_energy_data. destruct (int4 id && _ && _); [|done].
    rewrite (update_rows_none_matches _ _ _ Hw), Hw. by destruct st. }
  rewrite Hu.
  destruct (b_timestamp body) as [t|] eqn:Et,
           (b_consumption body) as [c|] eqn:Ec;
    try (by destruct (int4 id && _ && _)).
  by destruct Hb.
Qed.

End UpdateFacts.

Lemma put_then_get_witness :
  put_record no_check Db.tied_store "3" (set_consumption (Finite 9))
  = (PutOk "Data updated successfully"
       {| Db.id := 3; Db.timestamp := 1735700400000000;
          Db.consumption := Finite 9 |},
     {| Db.energy_data :=
          [ {| Db.id := 1; Db.timestamp := 1735689600000000;
               Db.consumption := Finite 7 |};
            {| Db.id := 2; Db.timestamp := 1735696800000000;
               Db.consumption := Finite 7 |};
            {| Db.id := 3; Db.timestamp := 1735700400000000;
               Db.consumption := Finite 9 |} ];
        Db.next_id := 4 |})
  /\ get_record
       {| Db.energy_data :=
            [ {| Db.id := 1; Db.timestamp := 1735689600000000;
                 Db.consumption := Finite 7 |};
              {| Db.id := 2; Db.timestamp := 1735696800000000;
                 Db.consumption := Finite 7 |};
              {| Db.id := 3; Db.timestamp := 1735700400000000;
                 Db.consumption := Finite 9 |} ];
          Db.next_id := 4 |} "3"
     = RecordOk {| Db.id := 3; Db.timestamp := 1735700400000000;
                   Db.consumption := Finite 9 |}.
Proof.
  split; [reflexivity|].
  exact (proj1 (put_then_get no_check Db.tied_store _ "3" _
                  (set_consumption (Finite 9)) _ eq_refl)).
Defined.

Lemma put_missing_record_witness :
  parseInt (Some "8") 0 = Some 8
  /\ where_id 8 (Db.energy_data Db.tied_store) = []
  /\ put_record Db.check_consumption Db.tied_store "8" null_consumption
     = (PutError 404 "Data not found", Db.tied_store).
Proof.
  assert (Hp : parseInt (Some "8") 0 = Some 8) by reflexivity.
  assert (Hw : where_id 8 (Db.energy_data Db.tied_store) = [])
    by reflexivity.
  split; [exact Hp|]. split; [exact Hw|].
  apply (put_missing_record Db.check_consumption Db.tied_store "8" 8
           null_consumption Hp Hw).
  right. discriminate.
Defined.

End RecordFacts.

(** ** Who gets through *)

Module AuthFacts.

Import Js RecordRoutes Auth UsersRoutes.

Lemma split_space_word (s : string) :
  no_space s = true -> split_space s = [s].
Proof.
  induction s as [|c s IH]; [done|]. simpl.
  destruct (Ascii.eqb c " "); [done|]. simpl. intros H. by rewrite IH.
Qed.

Lemma split_space_app (s rest : string) :
  no_space s = true ->
  split_space (s +:+ String " " rest) = s :: split_space rest.
Proof.
  induction s as [|c s IH]; [done|]. simpl.
  destruct (Ascii.eqb c " "); [done|]. simpl. intros H. by rewrite IH.
Qed.

Lemma app_space_not_empty (s rest : string) :
  String.eqb (s +:+ String " " rest) EmptyString = false.
Proof. by destruct s. Qed.

Lemma bearer_token_app (s rest : string) :
  no_space s = true ->
  bearer_token (Some (s +:+ String " " rest))
  = match head (split_space rest) with
    | Some t => if String.eqb t EmptyString then None else Some t
    | None => None
    end.
Proof.
  intros H. unfold bearer_token.
  rewrite app_space_not_empty, split_space_app by done.
  by destruct (split_space rest).
Qed.

Section MiddlewareFacts.

Variable jwt_verify : string -> option decoded.

(** X19. [authenticateToken] does not look at the scheme of the header:
    two headers that differ in the word before the first space only are
    answered alike. *)
Theorem authenticateToken_ignores_scheme (users : list user_row)
    (scheme scheme' rest : string) :
  no_space scheme = true ->
  no_space scheme' = true ->
  authenticateToken jwt_verify users (Some (scheme +:+ String " " rest))
  = authenticateToken jwt_verify users (Some (scheme' +:+ String " " rest)).
Proof.
  intros H H'. unfold authenticateToken.
  by rewrite !bearer_token_app by done.
Qed.

Lemma where_user_id_elem id users u :
  u ∈ where_user_id id users <-> u ∈ users /\ u_id u = id.
Proof.
  unfold where_user_id. rewrite !list_elem_of_In, filter_In.
  by rewrite Z.eqb_eq.
Qed.

(** X20. The rights of a request are read from the table, at the time of
    the request: whoever gets past [authenticateToken] and [requireAdmin]
    has sent a token that verifies, whose id is the id of a row of
    [users], and this row says [is_admin]; [req.user] is made of this
    row. *)
Theorem admin_only_follows_table (users : list user_row)
    (authHeader : option string) (u : req_user) :
  admin_only jwt_verify users authHeader = Next u ->
  exists (token : string) (d : decoded) (row : user_row),
    bearer_token authHeader = Some token
    /\ jwt_verify token = Some d
    /\ d_id d = Value (u_id row)
    /\ row ∈ users
    /\ u_is_admin row = true
    /\ u = selected row.
Proof.
  unfold admin_only, authenticateToken. intros H.
  destruct (bearer_token authHeader) as [token|]; [|discriminate].
  destruct (jwt_verify token) as [d|] eqn:Ev; [|discriminate].
  destruct (d_id d) as [| |id] eqn:Ed; [discriminate|discriminate|].
  destruct (int4 id); [|discriminate].
  destruct (where_user_id id users) as [|row rows] eqn:Ew; [discriminate|].
  simpl in H. destruct (u_is_admin row) eqn:Ea; [|discriminate].
  injection H as <-.
  assert (Hin : row ∈ where_user_id id users) by (rewrite Ew; by left).
  apply where_user_id_elem in Hin as [Hin <-].
  by exists token, d, row.
Qed.

Lemma where_user_id_filter_other id id' users :
  id <> id' ->
  where_user_id id (List.filter (fun u => negb (u_id u =? id')) users)
  = where_user_id id users.
Proof.
  intros Hne. unfold where_user_id.
  induction users as [|u users IH]; [done|]. simpl.
  destruct (u_id u =? id') eqn:E; simpl.
  - apply Z.eqb_eq in E. destruct (u_id u =? id) eqn:E'; [|done].
    apply Z.eqb_eq in E'. congruence.
  - by rewrite IH.
Qed.

(** X21. No DELETE /users/:id takes the rights of the one who sends it:
    a header that gets past [authenticateToken] and [requireAdmin] before
    the request gets past them after it, as the same user, whatever the
    [id] of the request and whatever the answer. *)
Theorem delete_user_keeps_requester (users : list user_row)
    (authHeader : option string) (id_param : string) (u : req_user) :
  admin_only jwt_verify users authHeader = Next u ->
  admin_only jwt_verify (snd (delete_user jwt_verify users authHeader id_param))
    authHeader = Next u.
Proof.
  intros H. unfold delete_user. rewrite H. unfold delete_user_handler.
  destruct (parseInt (Some id_param) 0) as [id|]; [|done].
  destruct (ru_id u =? id) eqn:Eid; [done|].
  destruct (int4 id); [|done].
  destruct (where_user_id id users) as [|u0 us]; [done|]. simpl.
  apply Z.eqb_neq in Eid.
  unfold admin_only, authenticateToken in *.
  destruct (bearer_token authHeader) as [token|]; [|discriminate].
  destruct (jwt_verify token) as [d|]; [|discriminate].
  destruct (d_id d) as [| |n]; [discriminate|discriminate|].
  destruct (int4 n); [|discriminate].
  destruct (where_user_id n users) as [|row rows] eqn:Ew; [discriminate|].
  assert (ru_id u = n) as Hn.
  { assert (Hin : row ∈ where_user_id n users) by (rewrite Ew; by left).
    apply where_user_id_elem in Hin as [_ Hid].
    simpl in H. destruct (u_is_admin row); [|discriminate].
    injection H as <-. done. }
  rewrite where_user_id_filter_other by congruence. by rewrite Ew.
Qed.

End MiddlewareFacts.

Lemma authenticateToken_ignores_scheme_witness :
  authenticateToken sample_verify [alice; bob] (Some "Bearer token-1")
  = authenticateToken sample_verify [alice; bob] (Some "Basic token-1").
Proof.
  exact (authenticateToken_ignores_scheme sample_verify [alice; bob]
           "Bearer" "Basic" "token-1" eq_refl eq_refl).
Defined.

Lemma admin_only_follows_table_witness :
  exists (token : string) (d : decoded) (row : user_row),
    bearer_token (Some "Bearer token-1") = Some token
    /\ sample_verify token = Some d
    /\ d_id d = Value (u_id row)
    /\ row ∈ [alice; bob]
    /\ u_is_admin row = true
    /\ selected alice = selected row.
Proof.
  exact (admin_only_follows_table sample_verify [alice; bob]
           (Some "Bearer token-1") (selected alice) eq_refl).
Defined.

Lemma delete_user_keeps_requester_witness :
  delete_user sample_verify [alice; bob] (Some "Bearer token-1") "2"
  = (UserDeleted "User deleted successfully" 2, [alice])
  /\ admin_only sample_verify
       (snd (delete_user sample_verify [alice; bob]
               (Some "Bearer token-1") "2"))
       (Some "Bearer token-1")
     = Next (selected alice).
Proof.
  split; [reflexivity|].
  exact (delete_user_keeps_requester sample_verify [alice; bob]
           (Some "Bearer token-1") "2" (selected alice) eq_refl).
Defined.

Section LoginFacts.

Variable jwt_sign : claims -> string.
Variable jwt_verify : string -> option decoded.
Variable comparePassword : string -> string -> bool.

Lemma filter_head_elem {A} (f : A -> bool) (l : list A) x xs :
  List.filter f l = x :: xs -> x ∈ l /\ f x = true.
Proof.
  intros H. assert (Hin : In x (List.filter f l)) by (rewrite H; by left).
  apply filter_In in Hin as [Hin Hf]. by rewrite list_elem_of_In.
Qed.

Lemma NoDup_map_eq {A B} (f : A -> B) (l : list A) x y :
  NoDup (map f l) -> x ∈ l -> y ∈ l -> f x = f y -> x = y.
Proof.
  induction l as [|a l IH]; intros Hnd Hx Hy Hf; [by apply elem_of_nil in Hx|].
  simpl in Hnd. apply NoDup_cons in Hnd as [Hna Hnd].
  apply elem_of_cons in Hx as [->|Hx], Hy as [->|Hy]; [done| | |by apply IH].
  - exfalso. apply Hna. rewrite Hf. apply list_elem_of_fmap. by exists y.
  - exfalso. apply Hna. rewrite <- Hf. apply list_elem_of_fmap. by exists x.
Qed.

(** X22. The token of a login gets its user through [authenticateToken]:
    when the ids of [users] are distinct and within the range of the key,
    and the token signed for a user is a non-empty word without a space
    that verifies with the id it was signed for, a successful login
    answers for a row of [users] with the username of the body and a
    matching password, and the header [Bearer <access_token>] is let
    through as this user. *)
Theorem login_then_authenticate (users : list user_row) (body : login_body)
    (reply : login_reply) :
  NoDup (map u_id users) ->
  (forall u, u ∈ users ->
     int4 (u_id u) = true
     /\ no_space (generateToken jwt_sign u) = true
     /\ generateToken jwt_sign u <> EmptyString
     /\ exists d, jwt_verify (generateToken jwt_sign u) = Some d
                  /\ d_id d = Value (u_id u)) ->
  login jwt_sign comparePassword users body = LoginOk reply ->
  (exists (row : user_row) (password : string),
     row ∈ users
     /\ l_username body = Some (u_username row)
     /\ l_password body = Some password
     /\ comparePassword password (u_password_hash row) = true
     /\ user reply = selected row)
  /\ authenticateToken jwt_verify users
       (Some ("Bearer " +:+ access_token reply))
     = Next (user reply).
Proof.
  intros Hnd Hjwt H. unfold login in H.
  destruct (l_username body) as [username|] eqn:Eu; [|discriminate].
  destruct (l_password body) as [password|] eqn:Epw;
    [|by rewrite orb_true_r in H].
  destruct (falsy (Some username) || falsy (Some password)); [discriminate|].
  simpl in H.
  destruct (List.filter _ users) as [|row rows] eqn:Ef; [discriminate|].
  destruct (comparePassword password (u_password_hash row)) eqn:Ec;
    [|discriminate].
  injection H as <-. cbn [access_token user].
  apply filter_head_elem in Ef as [Hin Hname]. apply String.eqb_eq in Hname.
  split; [exists row, password; by rewrite Hname|].
  destruct (Hjwt row Hin) as (Hi & Hns & Hne & d & Hv & Hd).
  unfold authenticateToken.
  change ("Bearer " +:+ generateToken jwt_sign row)
    with ("Bearer" +:+ String " " (generateToken jwt_sign row)).
  rewrite bearer_token_app by done.
  rewrite split_space_word by done. simpl.
  apply String.eqb_neq in Hne. rewrite Hne, Hv, Hd, Hi.
  destruct (where_user_id (u_id row) users) as [|row' rows'] eqn:Ew.
  - assert (Hin' : row ∈ where_user_id (u_id row) users)
      by (by apply where_user_id_elem).
    rewrite Ew in Hin'. by apply elem_of_nil in Hin'.
  - assert (Hin' : row' ∈ where_user_id (u_id row) users)
      by (rewrite Ew; by left).
    apply where_user_id_elem in Hin' as [Hin' Hid].
    by rewrite (NoDup_map_eq u_id users row' row Hnd Hin' Hin Hid).
Qed.

End LoginFacts.

Lemma sample_users_tokens u :
  u ∈ [alice; bob] ->
  int4 (u_id u) = true
  /\ no_space (generateToken sample_sign u) = true
  /\ generateToken sample_sign u <> EmptyString
  /\ exists d, sample_verify (generateToken sample_sign u) = Some d
               /\ d_id d = Value (u_id u).
Proof.
  intros H. apply elem_of_cons in H as [->|H];
    [|apply list_elem_of_singleton in H as ->];
    (split; [done|]; split; [done|]; split; [done|]; by eexists).
Qed.

Lemma login_then_authenticate_witness :
  login sample_sign sample_compare [alice; bob]
    {| l_username := Some "alice"; l_password := Some "a" |}
  = LoginOk {| access_token := "token-1"; token_type := "Bearer";
               expires_in := 3600; user := selected alice |}
  /\ authenticateToken sample_verify [alice; bob] (Some "Bearer token-1")
     = Next (selected alice).
Proof.
  split; [reflexivity|].
  assert (Hnd : NoDup (map u_id [alice; bob]))
    by (apply (bool_decide_unpack _); by vm_compute).
  exact (proj2 (login_then_authenticate sample_sign sample_verify
                  sample_compare [alice; bob]
                  {| l_username := Some "alice"; l_password := Some "a" |}
                  _ Hnd sample_users_tokens eq_refl)).
Defined.

End AuthFacts.

(** ** New users *)

Module UsersFacts.

Import Js RecordRoutes Auth UsersRoutes.

Section CreateFacts.

Variable hashPassword : string -> string.

Lemma create_user_handler_inv users new_id body :
  snd (create_user_handler hashPassword users new_id body) = users
  \/ exists (username password : string) (is_admin : bool),
       n_username body = Some username
       /\ n_password body = Some password
       /\ List.filter (fun u => String.eqb (u_username u) username) users = []
       /\ create_user_handler hashPassword users new_id body
          = (Created "User created successfully"
               {| ru_id := new_id; ru_username := username;
                  ru_is_admin := is_admin |},
             users ++ [ {| u_id := new_id; u_username := username;
                           u_password_hash := hashPassword password;
                           u_is_admin := is_admin |} ]).
Proof.
  unfold create_user_handler.
  destruct (n_username body) as [username|]; [|by left].
  destruct (n_password body) as [password|];
    [|left; by rewrite orb_true_r].
  destruct (falsy (Some username) || falsy (Some password)); [by left|].
  cbn [default from_option id].
  destruct (String.length username <? 3)%nat; [by left|].
  destruct (String.length password <? 6)%nat; [by left|].
  destruct (List.filter _ users) as [|u us] eqn:Ef; [|by left].
  destruct (default (Value false) (n_is_admin body)) as [| |is_admin];
    [by left|by left|].
  destruct (String.length username <=? 50)%nat; [|by left].
  right. by exists username, password, is_admin.
Qed.

Lemma filter_nil_not_elem (username : string) (users : list user_row) :
  List.filter (fun u => String.eqb (u_username u) username) users = [] ->
  username ∉ map u_username users.
Proof.
  intros Hf Hin. apply list_elem_of_fmap in Hin as (u & -> & Hu).
  assert (Hin : In u (List.filter
                        (fun u' => String.eqb (u_username u') (u_username u))
                        users)).
  { apply filter_In. split; [by apply list_elem_of_In|].
    apply String.eqb_refl. }
  by rewrite Hf in Hin.
Qed.

(** X23. POST /users never gives a name to two users: when the names of
    the users are distinct before the request they are distinct after
    it, whatever the body and whatever the answer; and the users that
    were there are kept as they were. *)
Theorem create_user_names_distinct (users : list user_row) (new_id : Z)
    (body : create_body) :
  NoDup (map u_username users) ->
  NoDup (map u_username
           (snd (create_user_handler hashPassword users new_id body)))
  /\ exists new,
       snd (create_user_handler hashPassword users new_id body)
       = users ++ new.
Proof.
  intros Hnd.
  destruct (create_user_handler_inv users new_id body)
    as [->|(username & password & is_admin & _ & _ & Hf & ->)].
  - split; [done|]. exists []. by rewrite app_nil_r.
  - cbn [snd]. split; [|by eexists].
    rewrite map_app. apply NoDup_app. split; [done|]. split.
    + intros x Hx Hx'. apply list_elem_of_singleton in Hx'. subst x.
      by apply (filter_nil_not_elem _ _ Hf).
    + apply NoDup_singleton.
Qed.

Variable jwt_sign : claims -> string.
Variable comparePassword : string -> string -> bool.

(** X24. A user that was created can log in: when [comparePassword]
    accepts a password with the hash [hashPassword] made of it, a
    POST /users answered with the new user is followed by a successful
    login with the username and the password of its body, as this
    user. *)
Theorem create_then_login (users users' : list user_row) (new_id : Z)
    (body : create_body) (message : string) (u : req_user) :
  (forall password, comparePassword password (hashPassword password) = true) ->
  create_user_handler hashPassword users new_id body
  = (Created message u, users') ->
  exists reply,
    login jwt_sign comparePassword users'
      {| l_username := n_username body; l_password := n_password body |}
    = LoginOk reply
    /\ user reply = u
    /\ ru_id u = new_id
    /\ n_username body = Some (ru_username u).
Proof.
  intros Hcmp H.
  destruct (create_user_handler_inv users new_id body)
    as [Hs|(username & password & is_admin & Hu & Hp & Hf & Hc)].
  - exfalso. rewrite H in Hs. simpl in Hs. subst users'.
    unfold create_user_handler in H.
    destruct (falsy _ || falsy _); [discriminate|].
    destruct (String.length _ <? 3)%nat; [discriminate|].
    destruct (String.length _ <? 6)%nat; [discriminate|].
    destruct (List.filter _ users) as [|u0 us] eqn:Ef; [|discriminate].
    destruct (default (Value false) (n_is_admin body)); try discriminate.
    destruct (String.length _ <=? 50)%nat; [|discriminate].
    injection H as _ _ Hu. apply (f_equal length) in Hu.
    rewrite length_app in Hu. simpl in Hu. lia.
  - rewrite Hc in H. injection H as _ <- <-.
    assert (Hlen : falsy (Some username) || falsy (Some password) = false).
    { unfold create_user_handler in Hc. rewrite Hu, Hp in Hc.
      destruct (falsy (Some username) || falsy (Some password)); [|done].
      injection Hc as _ Hc. apply (f_equal length) in Hc.
      rewrite length_app in Hc. simpl in Hc. lia. }
    unfold login. cbn [l_username l_password]. rewrite Hu, Hp, Hlen.
    cbn [default from_option id]. rewrite List.filter_app, Hf. simpl.
    rewrite String.eqb_refl. simpl. rewrite Hcmp.
    eexists. split; [reflexivity|]. done.
Qed.

End CreateFacts.

Lemma create_user_names_distinct_witness :
  NoDup (map u_username [alice; bob])
  /\ NoDup (map u_username
              (snd (create_user_handler sample_hash [alice; bob] 3
                      (new_user "carol" "secret1")))).
Proof.
  assert (H : NoDup (map u_username [alice; bob]))
    by (apply (bool_decide_unpack _); by vm_compute).
  split; [exact H|].
  exact (proj1 (create_user_names_distinct sample_hash [alice; bob] 3
                  (new_user "carol" "secret1") H)).
Defined.

Lemma sample_compare_hash password :
  sample_compare password (sample_hash password) = true.
Proof. apply String.eqb_refl. Qed.

Lemma create_then_login_witness :
  create_user_handler sample_hash [alice; bob] 3 (new_user "carol" "secret1")
  = (Created "User created successfully"
       {| ru_id := 3; ru_username := "carol"; ru_is_admin := false |},
     [alice; bob;
      {| u_id := 3; u_username := "carol";
         u_password_hash := sample_hash "secret1"; u_is_admin := false |}])
  /\ exists reply,
       login sample_sign sample_compare
         [alice; bob;
          {| u_id := 3; u_username := "carol";
             u_password_hash := sample_hash "secret1"; u_is_admin := false |}]
         {| l_username := Some "carol"; l_password := Some "secret1" |}
       = LoginOk reply
       /\ user reply
          = {| ru_id := 3; ru_username := "carol"; ru_is_admin := false |}
       /\ 3 = 3
       /\ Some "carol"%string = Some "carol"%string.
Proof.
  split; [reflexivity|].
  exact (create_then_login sample_hash sample_sign sample_compare
           [alice; bob] _ 3 (new_user "carol" "secret1") _ _
           sample_compare_hash eq_refl).
Defined.

End UsersFacts.

(** ** Starting the server twice *)

Module SeedFacts.

Import Js Csv DataRoutes Auth Seed.

Lemma insert_rows_same_or_rows vs : forall st n st' n',
  Db.insert_rows Db.no_conflict (st, n) vs = Some (st', n') ->
  (vs = [] /\ st' = st) \/ Db.energy_data st' <> [].
Proof.
  destruct vs as [|[ts c] vs]; intros st n st' n' H; simpl in H.
  - left. by injection H as <- _.
  - right. destruct (Db.check_consumption c); [|discriminate].
    unfold Db.no_conflict in H at 1.
    apply UploadFacts2.insert_rows_appends in H as (new & Hnew).
    rewrite Hnew. simpl. by destruct (Db.energy_data st).
Qed.

Lemma run_chunks_same_or_rows cs : forall st r st',
  Forall (fun c : list reading => c <> []) cs ->
  run_chunks Db.no_conflict st cs = (r, st') ->
  st' = st \/ Db.energy_data st' <> [].
Proof.
  induction cs as [|c cs IH]; intros st r st' Hne H; simpl in H.
  - left. by injection H as _ <-.
  - apply Forall_cons in Hne as [Hc Hne].
    destruct (Db.insert_values Db.no_conflict st (batch_values c))
      as [[st1 k]|] eqn:E; [|left; by injection H as _ <-].
    destruct (run_chunks Db.no_conflict st1 cs) as [r2 st2] eqn:E2.
    injection H as _ <-. right.
    apply insert_rows_same_or_rows in E as [[E _]|E].
    { by destruct c. }
    apply UploadFacts2.run_chunks_appends in E2 as (new & Hnew).
    rewrite Hnew. by destruct (Db.energy_data st1).
Qed.

Lemma chunks_not_empty {A} n (l : list A) :
  Forall (fun c : list A => c <> []) (chunks n l).
Proof. funelim (chunks n l); simp chunks; by constructor. Qed.

Section SeedTwice.

Variable dayjs_utc : option string -> option Z.
Variable adminUser passwordHash : string.
Variable sample : option csv_events.

Lemma seed_admin_twice admin_id db db' :
  seed_admin adminUser passwordHash admin_id db = Some db' ->
  List.filter (fun u => String.eqb (u_username u) adminUser) (users db') <> [].
Proof.
  unfold seed_admin.
  destruct (List.filter _ (users db)) as [|u us] eqn:Ef.
  - destruct (_ <=? _)%nat; [|discriminate]. intros [= <-]. simpl.
    rewrite List.filter_app, Ef. simpl. by rewrite String.eqb_refl.
  - intros [= <-]. by rewrite Ef.
Qed.

Lemma load_sample_twice st st' :
  load_sample dayjs_utc sample st = Some st' ->
  load_sample dayjs_utc sample st' = Some st'.
Proof.
  intros H.
  assert (Hcases : st' = st \/ Db.energy_data st' <> []).
  { unfold load_sample in H.
    destruct (Db.sql_count (Db.energy_data st) =? 0); [|left; by injection H].
    destruct sample as [src|]; [|left; by injection H].
    destruct (fst (parseCsv dayjs_utc src)) as [records|err|err];
      [|left; by injection H|discriminate].
    destruct (0 <? length records)%nat; [|left; by injection H].
    injection H as <-.
    rewrite (DataFacts.insert_batches_run_chunks Db.no_conflict _
               (length records)) by lia.
    rewrite skipn_0.
    destruct (run_chunks Db.no_conflict st (chunks batchSize records))
      as [r st1] eqn:Er.
    apply run_chunks_same_or_rows in Er; [|apply chunks_not_empty].
    by destruct r. }
  destruct Hcases as [->|Hrows]; [done|].
  unfold load_sample, Db.sql_count.
  destruct (Db.energy_data st') as [|r rows]; [done|].
  replace (Z.of_nat (length (r :: rows)) =? 0) with false; [done|].
  symmetry. apply Z.eqb_neq. simpl length. lia.
Qed.

(** X25. Starting the server a second time changes nothing: when
    [initializeDatabase] returns, running it again with the same sample
    file returns as well, and leaves the rows of both tables as they
    are; the admin user is not created again and the sample is not
    loaded again. *)
Theorem initializeDatabase_twice (admin_id admin_id' : Z)
    (db db' : database) :
  initializeDatabase dayjs_utc adminUser passwordHash admin_id sample db
  = Some db' ->
  exists db'',
    initializeDatabase dayjs_utc adminUser passwordHash admin_id' sample db'
    = Some db''
    /\ users db'' = users db'
    /\ Db.energy_data (energy db'') = Db.energy_data (energy db').
Proof.
  unfold initializeDatabase. intros H.
  destruct (seed_admin adminUser passwordHash admin_id db) as [db1|] eqn:Es;
    [|discriminate].
  destruct (load_sample dayjs_utc sample (energy db1)) as [st|] eqn:El;
    [|discriminate].
  injection H as <-.
  apply seed_admin_twice in Es. apply load_sample_twice in El.
  unfold seed_admin at 1. cbn [users].
  destruct (List.filter _ (users db1)) as [|u us]; [done|].
  cbn [energy]. rewrite El. by eexists.
Qed.

End SeedTwice.

Lemma initializeDatabase_twice_witness :
  initializeDatabase dayjs_sample "admin" "hash-admin123" 1 (Some three_rows)
    fresh
  = Some {| users := [ {| u_id := 1; u_username := "admin";
                        u_password_hash := "hash-admin123";
                        u_is_admin := true |} ];
            energy :=
              {| Db.energy_data :=
                   [ {| Db.id := 1; Db.timestamp := 1735689600000000;
                        Db.consumption := Finite 5 |};
                     {| Db.id := 2; Db.timestamp := 1735696800000000;
                        Db.consumption := Finite 7 |} ];
                 Db.next_id := 3 |} |}
  /\ exists db'',
       initializeDatabase dayjs_sample "admin" "hash-admin123" 2
         (Some three_rows)
         {| users := [ {| u_id := 1; u_username := "admin";
                          u_password_hash := "hash-admin123";
                          u_is_admin := true |} ];
            energy :=
              {| Db.energy_data :=
                   [ {| Db.id := 1; Db.timestamp := 1735689600000000;
                        Db.consumption := Finite 5 |};
                     {| Db.id := 2; Db.timestamp := 1735696800000000;
                        Db.consumption := Finite 7 |} ];
                 Db.next_id := 3 |} |}
       = Some db''
       /\ users db'' = [ {| u_id := 1; u_username := "admin";
                            u_password_hash := "hash-admin123";
                            u_is_admin := true |} ]
       /\ Db.energy_data (energy db'')
          = [ {| Db.id := 1; Db.timestamp := 1735689600000000;
                 Db.consumption := Finite 5 |};
              {| Db.id := 2; Db.timestamp := 1735696800000000;
                 Db.consumption := Finite 7 |} ].
Proof.
  assert (H : initializeDatabase dayjs_sample "admin" "hash-admin123" 1
                (Some three_rows) fresh
              = Some {| users := [ {| u_id := 1; u_username := "admin";
                                    u_password_hash := "hash-admin123";
                                    u_is_admin := true |} ];
                        energy :=
                          {| Db.energy_data :=
                               [ {| Db.id := 1;
                                    Db.timestamp := 1735689600000000;
                                    Db.consumption := Finite 5 |};
                                 {| Db.id := 2;
                                    Db.timestamp := 1735696800000000;
                                    Db.consumption := Finite 7 |} ];
                             Db.next_id := 3 |} |})
    by (vm_compute; reflexivity).
  split; [exact H|].
  exact (initializeDatabase_twice dayjs_sample "admin" "hash-admin123"
           (Some three_rows) 1 2 fresh _ H).
Defined.

End SeedFacts.

(** ** The page bar *)

Module PaginationFacts.

Import Pagination.

Lemma elem_of_count_up n : forall a p,
  p ∈ count_up n a <-> a <= p < a + Z.of_nat n.
Proof.
  induction n as [|n IH]; intros a p; simpl.
  - rewrite elem_of_nil. lia.
  - rewrite elem_of_cons, IH. lia.
Qed.

Lemma elem_of_range a b p : p ∈ range a b <-> a <= p <= b.
Proof. unfold range. rewrite elem_of_count_up. lia. Qed.

Lemma length_count_up n : forall a, length (count_up n a) = n.
Proof. induction n as [|n IH]; intros a; simpl; [done|by rewrite IH]. Qed.

Lemma count_up_sorted n : forall a, StronglySorted Z.lt (count_up n a).
Proof.
  induction n as [|n IH]; intros a; simpl; constructor; [apply IH|].
  apply Forall_forall. intros p Hp. apply elem_of_count_up in Hp. lia.
Qed.

Lemma page_numbers_app l1 l2 :
  page_numbers (l1 ++ l2) = page_numbers l1 ++ page_numbers l2.
Proof. apply omap_app. Qed.

Lemma page_numbers_Page l : page_numbers (map Page l) = l.
Proof. induction l as [|x l IH]; [done|]. simpl. by rewrite IH. Qed.

Lemma page_numbers_ellipsis (b : bool) :
  page_numbers (if b then [Ellipsis] else []) = [].
Proof. by destruct b. Qed.

(** The page numbers of the bar. *)
Lemma page_numbers_getPageItems cur total :
  page_numbers (getPageItems cur total)
  = if total <=? 7 then range 1 total
    else [1]
         ++ range (if 2 <? cur - 2 then Z.max 2 (cur - 2) else 2)
                  (if cur + 2 <? total - 1 then Z.min (total - 1) (cur + 2)
                   else total - 1)
         ++ [total].
Proof.
  unfold getPageItems. destruct (total <=? 7); [apply page_numbers_Page|].
  rewrite !page_numbers_app, !page_numbers_ellipsis, page_numbers_Page.
  done.
Qed.

Lemma range_first a b : a <= b -> range a b = a :: range (a + 1) b.
Proof.
  intros H. unfold range.
  replace (Z.to_nat (b - a + 1)) with (S (Z.to_nat (b - (a + 1) + 1))) by lia.
  done.
Qed.

Lemma count_up_snoc n : forall a,
  count_up (S n) a = count_up n a ++ [a + Z.of_nat n].
Proof.
  induction n as [|n IH]; intros a.
  - simpl. by rewrite Z.add_0_r.
  - change (count_up (S (S n)) a) with (a :: count_up (S n) (a + 1)).
    rewrite IH. simpl. do 3 f_equal. lia.
Qed.

Lemma range_last a b : a <= b -> range a b = range a (b - 1) ++ [b].
Proof.
  intros H. unfold range.
  replace (Z.to_nat (b - a + 1)) with (S (Z.to_nat (b - 1 - a + 1))) by lia.
  rewrite count_up_snoc. do 2 f_equal. lia.
Qed.

(** X26. For a current page within 1..[totalPages], the page numbers of
    the bar start with 1 and end with [totalPages], increase strictly,
    lie within 1..[totalPages], and include the current page and the two
    pages on each side of it that exist; the bar has at most 9 items. *)
Theorem getPageItems_pages (currentPage totalPages : Z) :
  1 <= currentPage <= totalPages ->
  head (page_numbers (getPageItems currentPage totalPages)) = Some 1
  /\ last (page_numbers (getPageItems currentPage totalPages))
     = Some totalPages
  /\ StronglySorted Z.lt (page_numbers (getPageItems currentPage totalPages))
  /\ (forall p, p ∈ page_numbers (getPageItems currentPage totalPages) ->
                1 <= p <= totalPages)
  /\ (forall p, 1 <= p <= totalPages ->
                currentPage - 2 <= p <= currentPage + 2 ->
                p ∈ page_numbers (getPageItems currentPage totalPages))
  /\ (length (getPageItems currentPage totalPages) <= 9)%nat.
Proof.
  intros H. rewrite page_numbers_getPageItems. unfold getPageItems.
  destruct (totalPages <=? 7) eqn:E7.
  - apply Z.leb_le in E7. split; [by rewrite range_first by lia|].
    split; [rewrite range_last by lia; apply last_snoc|].
    split; [apply count_up_sorted|].
    split; [intros p Hp; by apply elem_of_range in Hp|].
    split; [intros p Hp _; by apply elem_of_range|].
    rewrite length_map. unfold range. rewrite length_count_up. lia.
  - apply Z.leb_gt in E7.
    set (s := if 2 <? currentPage - 2 then Z.max 2 (currentPage - 2) else 2).
    set (e := if currentPage + 2 <? totalPages - 1
              then Z.min (totalPages - 1) (currentPage + 2)
              else totalPages - 1).
    assert (Hs : 2 <= s /\ (s <= currentPage \/ s = 2)
                 /\ (s = 2 \/ s = currentPage - 2)).
    { unfold s. destruct (2 <? currentPage - 2) eqn:El; [|lia].
      apply Z.ltb_lt in El. lia. }
    assert (He : e <= totalPages - 1
                 /\ (e = totalPages - 1 \/ e = currentPage + 2)).
    { unfold e. destruct (currentPage + 2 <? totalPages - 1) eqn:Er; [|lia].
      apply Z.ltb_lt in Er. lia. }
    split; [done|].
    split; [by rewrite app_assoc, last_snoc|].
    split.
    { change ([1] ++ range s e ++ [totalPages])
        with (1 :: (range s e ++ [totalPages])).
      constructor.
      - apply StronglySorted_app_2; [|apply count_up_sorted|repeat constructor].
        intros x1 x2 H1 H2. apply elem_of_range in H1.
        apply list_elem_of_singleton in H2. lia.
      - apply Forall_forall. intros p Hp.
        apply elem_of_app in Hp as [Hp|Hp].
        + apply elem_of_range in Hp. lia.
        + apply list_elem_of_singleton in Hp. lia. }
    split.
    { intros p Hp. apply elem_of_cons in Hp as [->|Hp]; [lia|].
      apply elem_of_app in Hp as [Hp|Hp].
      - apply elem_of_range in Hp. lia.
      - apply list_elem_of_singleton in Hp. lia. }
    split.
    { intros p Hp Hn.
      destruct (Z.eq_dec p 1) as [->|H1]; [by left|].
      destruct (Z.eq_dec p totalPages) as [->|Ht].
      { right. apply elem_of_app. right. by left. }
      right. apply elem_of_app. left. apply elem_of_range.
      unfold s, e.
      destruct (2 <? currentPage - 2) eqn:El,
               (currentPage + 2 <? totalPages - 1) eqn:Er;
        try apply Z.ltb_lt in El; try apply Z.ltb_lt in Er;
        try apply Z.ltb_ge in El; try apply Z.ltb_ge in Er; lia. }
    rewrite !length_app, length_map. unfold range. rewrite length_count_up.
    fold s e.
    destruct (2 <? currentPage - 2) eqn:El,
             (currentPage + 2 <? totalPages - 1) eqn:Er; simpl;
      try apply Z.ltb_lt in El; try apply Z.ltb_lt in Er;
      try apply Z.ltb_ge in El; try apply Z.ltb_ge in Er;
      unfold s, e; rewrite ?El, ?Er; lia.
Qed.

Lemma getPageItems_pages_witness :
  getPageItems 5 10
  = [Page 1; Ellipsis; Page 3; Page 4; Page 5; Page 6; Page 7; Ellipsis;
     Page 10]
  /\ StronglySorted Z.lt (page_numbers (getPageItems 5 10)).
Proof.
  split; [reflexivity|].
  exact (proj1 (proj2 (proj2 (getPageItems_pages 5 10 ltac:(lia))))).
Defined.

Lemma gaps_marked_count_up n : forall a rest,
  gaps_marked (a - 1) (map Page (count_up n a) ++ rest)
  = gaps_marked (a + Z.of_nat n - 1) rest.
Proof.
  induction n as [|n IH]; intros a rest.
  - simpl. f_equal. lia.
  - cbn [count_up map app gaps_marked].
    replace (a =? a - 1 + 1) with true by lia. simpl.
    replace a with (a + 1 - 1) at 1 by lia. rewrite IH. f_equal. lia.
Qed.

Lemma gaps_marked_range prev a b rest :
  a = prev + 1 -> a <= b + 1 ->
  gaps_marked prev (map Page (range a b) ++ rest) = gaps_marked b rest.
Proof.
  intros -> H. unfold range.
  replace prev with (prev + 1 - 1) at 1 by lia.
  rewrite gaps_marked_count_up. f_equal. lia.
Qed.

(** X27. For a current page within 1..[totalPages], the bar leaves no
    page out without saying so: it starts with page 1, every page number
    that follows a page number is the next page, and an ellipsis stands
    only between two page numbers that have a page between them. *)
Theorem getPageItems_gaps (currentPage totalPages : Z) :
  1 <= currentPage <= totalPages ->
  gaps_marked 0 (getPageItems currentPage totalPages) = true.
Proof.
  intros H. unfold getPageItems.
  destruct (totalPages <=? 7) eqn:E7.
  - rewrite <- (app_nil_r (map Page _)).
    by rewrite gaps_marked_range by lia.
  - apply Z.leb_gt in E7. cbn [app gaps_marked]. simpl (1 =? 0 + 1).
    cbn [andb].
    destruct (2 <? currentPage - 2) eqn:El,
             (currentPage + 2 <? totalPages - 1) eqn:Er;
      try apply Z.ltb_lt in El; try apply Z.ltb_lt in Er;
      try apply Z.ltb_ge in El; try apply Z.ltb_ge in Er.
    + rewrite Z.max_r, Z.min_r by lia.
      rewrite (range_first (currentPage - 2)) by lia.
      cbn [app map gaps_marked].
      replace (1 + 1 <? currentPage - 2) with true by lia. cbn [andb].
      rewrite gaps_marked_range by lia. cbn [gaps_marked].
      replace (currentPage + 2 + 1 <? totalPages) with true by lia. done.
    + rewrite Z.max_r by lia.
      rewrite (range_first (currentPage - 2)) by lia.
      cbn [app map gaps_marked].
      replace (1 + 1 <? currentPage - 2) with true by lia. cbn [andb].
      rewrite gaps_marked_range by lia. cbn [app gaps_marked].
      replace (totalPages =? totalPages - 1 + 1) with true by lia. done.
    + rewrite Z.min_r by lia. cbn [app].
      rewrite gaps_marked_range by lia. cbn [gaps_marked].
      replace (currentPage + 2 + 1 <? totalPages) with true by lia. done.
    + lia.
Qed.

Lemma getPageItems_gaps_witness :
  gaps_marked 0 (getPageItems 9 10) = true
  /\ getPageItems 9 10
     = [Page 1; Ellipsis; Page 7; Page 8; Page 9; Page 10].
Proof.
  split; [|reflexivity].
  exact (getPageItems_gaps 9 10 ltac:(lia)).
Defined.

End PaginationFacts.

(** ** The cells of recordsToCsv *)

Module CsvCells.

Import Js Csv.

Lemma length_append (a c : string) :
  String.length (a +:+ c) = (String.length a + String.length c)%nat.
Proof.
  induction a as [|x a IH]; [done|].
  change (String x a +:+ c) with (String x (a +:+ c)). simpl. by rewrite IH.
Qed.

Lemma append_inj_r (a : string) : forall b c, a +:+ c = b +:+ c -> a = b.
Proof.
  induction a as [|x a IH]; intros [|y b] c H.
  - done.
  - apply (f_equal String.length) in H. rewrite !length_append in H.
    simpl in H. lia.
  - apply (f_equal String.length) in H. rewrite !length_append in H.
    simpl in H. lia.
  - change (String x (a +:+ c) = String y (b +:+ c)) in H.
    injection H as -> H. f_equal. by apply IH in H.
Qed.

Lemma replace_dquote_inj (s1 : string) : forall s2,
  replace_all dquote (char_string dquote +:+ char_string dquote) s1
  = replace_all dquote (char_string dquote +:+ char_string dquote) s2 ->
  s1 = s2.
Proof.
  induction s1 as [|a s1 IH]; intros [|b s2] H; cbn in H.
  - done.
  - by destruct (Ascii.eqb b dquote).
  - by destruct (Ascii.eqb a dquote).
  - destruct (Ascii.eqb a dquote) eqn:Ea, (Ascii.eqb b dquote) eqn:Eb.
    + apply Ascii.eqb_eq in Ea, Eb. subst a b.
      injection H as H. f_equal. by apply IH.
    + injection H as <- _. by rewrite Ascii.eqb_refl in Eb.
    + injection H as -> _. by rewrite Ascii.eqb_refl in Ea.
    + injection H as -> H. f_equal. by apply IH.
Qed.

Lemma includes_first c x : includes (String c x) (char_string c) = true.
Proof. apply CsvFacts.includes_char. simpl. by left. Qed.

Section Cells.

Variable number_to_string : number -> string.
Variable date_to_string : Z -> string.

(** X28. Two different strings are never written as the same cell: the
    text [recordsToCsv] writes for a string value determines the
    string. *)
Theorem string_cell_injective (s1 s2 : string) :
  join_item number_to_string date_to_string (escape_value (Some (VString s1)))
  = join_item number_to_string date_to_string
      (escape_value (Some (VString s2))) ->
  s1 = s2.
Proof.
  unfold escape_value.
  destruct (includes s1 (char_string comma) || includes s1 (char_string dquote))
    eqn:E1,
    (includes s2 (char_string comma) || includes s2 (char_string dquote))
    eqn:E2; cbn [join_item]; intros H.
  - apply (inj (String.append (char_string dquote))), append_inj_r in H.
    by apply replace_dquote_inj.
  - exfalso. apply orb_false_iff in E2 as [_ E2].
    rewrite <- H in E2. pose proof (includes_first dquote
      (replace_all dquote (char_string dquote +:+ char_string dquote) s1
       +:+ char_string dquote)) as Hq.
    change (String dquote ?x) with (char_string dquote +:+ x) in Hq.
    congruence.
  - exfalso. apply orb_false_iff in E1 as [_ E1].
    rewrite H in E1. pose proof (includes_first dquote
      (replace_all dquote (char_string dquote +:+ char_string dquote) s2
       +:+ char_string dquote)) as Hq.
    change (String dquote ?x) with (char_string dquote +:+ x) in Hq.
    congruence.
  - done.
Qed.

End Cells.

Lemma string_cell_injective_witness :
  "a,b"%string = "a,b"%string.
Proof.
  exact (string_cell_injective (fun _ => EmptyString) (fun _ => EmptyString)
           "a,b" "a,b" eq_refl).
Defined.

End CsvCells.
